(** * CoreClientProvider: session reconciliation and index synchronisation

    A shallow embedding of [CoreClientProvider] (the second document of
    [arduino-problem-contribution.ts]): [reconcileClient], [createClient],
    [updateIndexes], [updateIndex] and [updateLibraryIndex].

    The asynchronous code is sequential (every promise is awaited before the
    next statement runs), so it is embedded as a state-and-exception monad over
    the fields of the provider object, together with a trace of everything the
    provider does to the outside world: lines appended to the tool output
    service, notifications fired, channels constructed and closed, and
    streaming calls issued.  What the daemon answers to each streaming call is
    a parameter of the development. *)

From Stdlib Require Import String Ascii NArith ZArith Arith Lia Bool List.
Import ListNotations.
Open Scope list_scope.

Set Implicit Arguments.

(** ** JavaScript strings *)

Module Js.

(** A JavaScript string is a sequence of UTF-16 code units. *)
Definition str := list N.

(** A string literal of the source (all of them are ASCII). *)
Definition lit (s : string) : str := map N_of_ascii (list_ascii_of_string s).

(** The escape [\n] inside a literal. *)
Definition LF : str := [10%N].

(** [ToBoolean] on a string: only the empty string is falsy. *)
Definition truthy (s : str) : bool :=
  match s with
  | [] => false
  | _ :: _ => true
  end.

(** [ToBoolean] on [string | undefined]. *)
Definition truthy_opt (o : option str) : bool :=
  match o with
  | None => false
  | Some s => truthy s
  end.

Fixpoint eqb (a b : str) : bool :=
  match a, b with
  | [], [] => true
  | x :: a', y :: b' => N.eqb x y && eqb a' b'
  | _, _ => false
  end.

(** [a === b] where [a] and [b] are [string | undefined]. *)
Definition strict_eq (a b : option str) : bool :=
  match a, b with
  | None, None => true
  | Some x, Some y => eqb x y
  | _, _ => false
  end.

(** The character class [\s]: ECMAScript WhiteSpace and LineTerminator. *)
Definition white_space (c : N) : bool :=
  ((9 <=? c) && (c <=? 13)          (* TAB LF VT FF CR *)
   || (c =? 32)                     (* SPACE *)
   || (c =? 160)                    (* NO-BREAK SPACE *)
   || (c =? 5760)                   (* U+1680 *)
   || ((8192 <=? c) && (c <=? 8202))  (* U+2000 .. U+200A *)
   || (c =? 8232) || (c =? 8233)    (* U+2028 U+2029 *)
   || (c =? 8239)                   (* U+202F *)
   || (c =? 8287)                   (* U+205F *)
   || (c =? 12288)                  (* U+3000 *)
   || (c =? 65279))%N.              (* U+FEFF *)

(** [/\s/.test(s)] *)
Definition test_whitespace (s : str) : bool := existsb white_space s.

Fixpoint digits (d : Decimal.uint) : str :=
  match d with
  | Decimal.Nil => []
  | Decimal.D0 d => 48%N :: digits d
  | Decimal.D1 d => 49%N :: digits d
  | Decimal.D2 d => 50%N :: digits d
  | Decimal.D3 d => 51%N :: digits d
  | Decimal.D4 d => 52%N :: digits d
  | Decimal.D5 d => 53%N :: digits d
  | Decimal.D6 d => 54%N :: digits d
  | Decimal.D7 d => 55%N :: digits d
  | Decimal.D8 d => 56%N :: digits d
  | Decimal.D9 d => 57%N :: digits d
  end.

(** [`${i}`] for a loop counter [i]. *)
Definition of_nat (i : nat) : str := digits (Nat.to_uint i).

End Js.

Arguments Js.test_whitespace : simpl never.

Notation "s1 +++ s2" := (@app N s1 s2) (at level 60, right associativity).

(** ** Messages of the protocol *)

(** [Instance]: the opaque handle issued by the daemon ([getId]). *)
Record Instance := { getId : Z }.

(** [InitResp]; only the field read by [createClient] is kept. *)
Record InitResp := { getInstance : option Instance }.

(** [DownloadProgress]; [getFile] is the empty string when the field is unset. *)
Record DownloadProgress := { getFile : Js.str; getCompleted : bool }.

(** [UpdateIndexResp] and [UpdateLibrariesIndexResp] have the same shape. *)
Record UpdateIndexResp := { getDownloadProgress : option DownloadProgress }.
Abbreviation UpdateLibrariesIndexResp := UpdateIndexResp (only parsing).

(** How a server stream finishes: the ['end'] event or the ['error'] event.
    The error value is kept by its string rendering, the only thing the
    provider ever does with it. *)
Inductive Ending :=
| ended
| errored (err : Js.str).

(** A finished server stream: the ['data'] events in order, then its ending. *)
Record Stream (A : Type) := { data : list A; ending : Ending }.

(** The daemon: what it streams back on the [n]-th call of each method. *)
Record Daemon := {
  init_stream : nat -> Stream InitResp;
  updateIndex_stream : nat -> Stream UpdateIndexResp;
  updateLibrariesIndex_stream : nat -> Stream UpdateLibrariesIndexResp
}.

(** ** The provider object and its effects *)

(** The gRPC channel object, identified by the target it was constructed for. *)
Record ArduinoCoreClient := { target : Js.str }.

(** [CoreClientProvider.Client] *)
Record Client := { client : ArduinoCoreClient; instance : Instance }.

Inductive Severity := error.

(** The argument of [toolOutputService.append]. *)
Record OutputMessage := {
  tool : Js.str;
  chunk : Js.str;
  severity : option Severity
}.

Inductive Emitter := onIndexUpdatedEmitter | onClientReadyEmitter.

Inductive Request :=
| InitReq (libraryManagerOnly : bool)
| UpdateIndexReq (inst : Instance)
| UpdateLibrariesIndexReq (inst : Instance).

(** One thing done to the outside world. *)
Inductive Action :=
| Append (m : OutputMessage)                      (* toolOutputService.append(m) *)
| Fire (e : Emitter)                              (* e.fire() *)
| Construct (c : ArduinoCoreClient)               (* new ArduinoCoreClient(target, ...) *)
| Close (c : ArduinoCoreClient)                   (* c.close() *)
| Call (c : ArduinoCoreClient) (r : Request).     (* c.init(r), c.updateIndex(r), ... *)

(** The fields [_port] and [_client] the provider inherits, and how many times
    each streaming method has been called so far (the daemon's side of the
    conversation). *)
Record State := {
  _port : option Js.str;
  _client : option Client;
  init_calls : nat;
  updateIndex_calls : nat;
  updateLibrariesIndex_calls : nat
}.

Definition initial : State :=
  {| _port := None; _client := None;
     init_calls := 0; updateIndex_calls := 0; updateLibrariesIndex_calls := 0 |}.

(** What can be thrown. *)
Inductive Thrown :=
| Error (message : Js.str)        (* new Error(message) *)
| TypeError (message : Js.str)    (* raised by the engine *)
| StreamError (err : Js.str).     (* the value given to a stream's 'error' listener *)

(** [`${e}`] *)
Definition String_of (e : Thrown) : Js.str :=
  match e with
  | Error m => Js.lit "Error: " +++ m
  | TypeError m => Js.lit "TypeError: " +++ m
  | StreamError err => err
  end.

Inductive Outcome (A : Type) :=
| Returned (a : A)
| Threw (e : Thrown).
Arguments Threw {A} e.

(** What running a piece of code gives: how it finished, the state it left,
    and the actions it performed, oldest first.  What was done before a throw
    stays done. *)
Record Result (A : Type) := {
  outcome : Outcome A;
  final : State;
  did : list Action
}.

Definition M (A : Type) := State -> Result A.

Definition ret {A} (a : A) : M A :=
  fun s => {| outcome := Returned a; final := s; did := [] |}.

Definition throw {A} (e : Thrown) : M A :=
  fun s => {| outcome := Threw e; final := s; did := [] |}.

(** The result [r] of a continuation, after the actions [t] done before it. *)
Definition after {A} (t : list Action) (r : Result A) : Result A :=
  {| outcome := outcome r; final := final r; did := t ++ did r |}.

(** Run [r], then continue with [k] (on a return) or [h] (on a throw). *)
Definition andThen {A B} (r : Result A) (k : A -> M B) (h : Thrown -> M B) : Result B :=
  after (did r)
    match outcome r with
    | Returned a => k a (final r)
    | Threw e => h e (final r)
    end.

Definition bind {A B} (m : M A) (k : A -> M B) : M B :=
  fun s => andThen (m s) k throw.

(** [try { a = m; k a } catch (e) { h e }], for a [k] that does not throw. *)
Definition try_catch {A B} (m : M A) (k : A -> M B) (h : Thrown -> M B) : M B :=
  fun s => andThen (m s) k h.

Definition act (a : Action) : M unit :=
  fun s => {| outcome := Returned tt; final := s; did := [a] |}.

(** [this._port] and [this._client] *)
Definition this_port : M (option Js.str) :=
  fun s => {| outcome := Returned (_port s); final := s; did := [] |}.

Definition this_client : M (option Client) :=
  fun s => {| outcome := Returned (_client s); final := s; did := [] |}.

Definition set_port (p : option Js.str) : M unit :=
  fun s =>
    {| outcome := Returned tt;
       final := {| _port := p; _client := _client s;
                   init_calls := init_calls s;
                   updateIndex_calls := updateIndex_calls s;
                   updateLibrariesIndex_calls := updateLibrariesIndex_calls s |};
       did := [] |}.

Definition set_client (c : option Client) : M unit :=
  fun s =>
    {| outcome := Returned tt;
       final := {| _port := _port s; _client := c;
                   init_calls := init_calls s;
                   updateIndex_calls := updateIndex_calls s;
                   updateLibrariesIndex_calls := updateLibrariesIndex_calls s |};
       did := [] |}.

Declare Scope js_scope.
Delimit Scope js_scope with js.
Notation "x <- m ;; k" := (bind m (fun x => k))
  (at level 61, m at next level, right associativity) : js_scope.
Notation "m ;; k" := (bind m (fun _ => k))
  (at level 61, right associativity) : js_scope.
Open Scope js_scope.

(** The lines among some actions, in order: what the output service received. *)
Fixpoint sink (t : list Action) : list OutputMessage :=
  match t with
  | [] => []
  | Append m :: t' => m :: sink t'
  | _ :: t' => sink t'
  end.

(** The notifications among some actions, in order. *)
Fixpoint fired (t : list Action) : list Emitter :=
  match t with
  | [] => []
  | Fire e :: t' => e :: fired t'
  | _ :: t' => fired t'
  end.

(** The channels constructed among some actions. *)
Fixpoint constructed (t : list Action) : list ArduinoCoreClient :=
  match t with
  | [] => []
  | Construct c :: t' => c :: constructed t'
  | _ :: t' => constructed t'
  end.

(** The streaming calls among some actions, in order. *)
Fixpoint calls (t : list Action) : list (ArduinoCoreClient * Request) :=
  match t with
  | [] => []
  | Call c r :: t' => (c, r) :: calls t'
  | _ :: t' => calls t'
  end.

(** The channels closed among some actions. *)
Fixpoint closed (t : list Action) : list ArduinoCoreClient :=
  match t with
  | [] => []
  | Close c :: t' => c :: closed t'
  | _ :: t' => closed t'
  end.

(** ** The provider's methods *)

Definition daemon_tool : Js.str := Js.lit "daemon".

(** [`${file} completed.\n`] *)
Definition completed_chunk (file : Js.str) : Js.str :=
  file +++ Js.lit " completed." +++ Js.LF.

(** [`Download of '${file}' completed.\n'`] *)
Definition download_completed_chunk (file : Js.str) : Js.str :=
  Js.lit "Download of '" +++ file +++ Js.lit "' completed." +++ Js.LF +++ Js.lit "'".

(** [`The index has been successfully updated.\n'`] *)
Definition index_updated_chunk : Js.str :=
  Js.lit "The index has been successfully updated." +++ Js.LF +++ Js.lit "'".

(** [`The library index has been successfully updated.\n'`] *)
Definition library_index_updated_chunk : Js.str :=
  Js.lit "The library index has been successfully updated." +++ Js.LF +++ Js.lit "'".

Definition info (text : Js.str) : OutputMessage :=
  {| tool := daemon_tool; chunk := text; severity := None |}.

Definition failure (text : Js.str) : OutputMessage :=
  {| tool := daemon_tool; chunk := text; severity := Some error |}.

Section Provider.

Variable daemon : Daemon.

Definition toolOutputService_append (m : OutputMessage) : M unit := act (Append m).

Definition fire (e : Emitter) : M unit := act (Fire e).

(** [new ArduinoCoreClient(target, credentials, channelOptions)] *)
Definition new_ArduinoCoreClient (t : Js.str) : M ArduinoCoreClient :=
  fun s => {| outcome := Returned {| target := t |}; final := s;
              did := [Construct {| target := t |}] |}.

(** [client.init(initReq)]: the call is issued and the daemon streams back. *)
Definition client_init (c : ArduinoCoreClient) (libraryManagerOnly : bool)
  : M (Stream InitResp) :=
  fun s =>
    {| outcome := Returned (init_stream daemon (init_calls s));
       final := {| _port := _port s; _client := _client s;
                   init_calls := S (init_calls s);
                   updateIndex_calls := updateIndex_calls s;
                   updateLibrariesIndex_calls := updateLibrariesIndex_calls s |};
       did := [Call c (InitReq libraryManagerOnly)] |}.

(** [client.updateIndex(updateReq)] *)
Definition client_updateIndex (c : ArduinoCoreClient) (inst : Instance)
  : M (Stream UpdateIndexResp) :=
  fun s =>
    {| outcome := Returned (updateIndex_stream daemon (updateIndex_calls s));
       final := {| _port := _port s; _client := _client s;
                   init_calls := init_calls s;
                   updateIndex_calls := S (updateIndex_calls s);
                   updateLibrariesIndex_calls := updateLibrariesIndex_calls s |};
       did := [Call c (UpdateIndexReq inst)] |}.

(** [client.updateLibrariesIndex(req)] *)
Definition client_updateLibrariesIndex (c : ArduinoCoreClient) (inst : Instance)
  : M (Stream UpdateLibrariesIndexResp) :=
  fun s =>
    {| outcome := Returned
                    (updateLibrariesIndex_stream daemon (updateLibrariesIndex_calls s));
       final := {| _port := _port s; _client := _client s;
                   init_calls := init_calls s;
                   updateIndex_calls := updateIndex_calls s;
                   updateLibrariesIndex_calls := S (updateLibrariesIndex_calls s) |};
       did := [Call c (UpdateLibrariesIndexReq inst)] |}.

(** Deliver the ['data'] events of a stream to a listener that updates the
    local [l] it has captured. *)
Fixpoint deliver {A L} (listener : L -> A -> M L) (events : list A) (l : L) : M L :=
  match events with
  | [] => ret l
  | e :: rest => l' <- listener l e ;; deliver listener rest l'
  end.

(** [await new Promise((resolve, reject) => { on('error', reject); on('end', resolve) })] *)
Definition settled (e : Ending) : M unit :=
  match e with
  | ended => ret tt
  | errored err => throw (StreamError err)
  end.

(** The ['data'] listener of [updateIndex] and of [updateLibraryIndex]: the
    two differ only in the chunk of the last branch, [updated] here.  [file]
    is the local the listener has captured; its new value is returned. *)
Definition on_data (updated : Js.str) (file : option Js.str) (o : UpdateIndexResp)
  : M (option Js.str) :=
  match getDownloadProgress o with
  | Some progress =>
      let file :=
        if negb (Js.truthy_opt file) && Js.truthy (getFile progress)
        then Some (getFile progress)
        else file in
      if getCompleted progress then
        match file with
        | Some f =>
            if Js.truthy f then
              if Js.test_whitespace f
              then toolOutputService_append (info (completed_chunk f))
              else toolOutputService_append (info (download_completed_chunk f))
            else toolOutputService_append (info updated)
        | None => toolOutputService_append (info updated)
        end ;;
        ret None
      else ret file
  | None => ret file
  end.

Definition updateLibraryIndex (c : Client) : M unit :=
  resp <- client_updateLibrariesIndex (client c) (instance c) ;;
  _ <- deliver (on_data library_index_updated_chunk) (data resp) None ;;
  settled (ending resp).

Definition updateIndex (c : Client) : M unit :=
  updateResp <- client_updateIndex (client c) (instance c) ;;
  _ <- deliver (on_data index_updated_chunk) (data updateResp) None ;;
  settled (ending updateResp).

(** [for (let i = i0; i < i0 + n; i++) body]: the body is given [i] and the
    locals of the enclosing function, and returns whether it left the loop
    by [break] together with the locals. *)
Fixpoint for_loop {L} (n i : nat) (body : nat -> L -> M (bool * L)) (l : L) : M L :=
  match n with
  | 0 => ret l
  | S n' =>
      r <- body i l ;;
      if fst r then ret (snd r) else for_loop n' (S i) body (snd r)
  end.

(** The body of both loops of [updateIndexes]:
    [try { await update; succeeded = true; break; } catch (e) { append(...) }]
    where the chunk is [`${attempt}${i}: ${e}`]. *)
Definition try_update (update : M unit) (attempt : Js.str) (i : nat) (succeeded : bool)
  : M (bool * bool) :=
  try_catch update
    (fun _ => ret (true, true))
    (fun e =>
       toolOutputService_append
         (failure (attempt +++ Js.of_nat i +++ Js.lit ": " +++ String_of e)) ;;
       ret (false, succeeded)).

Definition unable_index : OutputMessage :=
  failure (Js.lit "Was unable to update the index. Please restart to try again.").

Definition unable_library_index : OutputMessage :=
  failure (Js.lit "Was unable to update the library index. Please restart to try again.").

Definition updateIndexes (c : Client) : M unit :=
  indexUpdateSucceeded <-
    for_loop 10 0
      (try_update (updateIndex c) (Js.lit "Error while updating index in attempt "))
      true ;;
  (if negb indexUpdateSucceeded
   then toolOutputService_append unable_index
   else ret tt) ;;
  libIndexUpdateSucceeded <-
    for_loop 10 0
      (try_update (updateLibraryIndex c)
         (Js.lit "Error while updating library index in attempt "))
      true ;;
  (if negb libIndexUpdateSucceeded
   then toolOutputService_append unable_library_index
   else ret tt) ;;
  if indexUpdateSucceeded && libIndexUpdateSucceeded
  then fire onIndexUpdatedEmitter
  else ret tt.

(** [initResp.getInstance()] where [initResp] may be [undefined]: the
    property access on [undefined] is a [TypeError]. *)
Definition getInstance_of (initResp : option InitResp) : M (option Instance) :=
  match initResp with
  | Some r => ret (getInstance r)
  | None => throw (TypeError (Js.lit "Cannot read property 'getInstance' of undefined"))
  end.

Definition createClient (port : Js.str) : M Client :=
  client <- new_ArduinoCoreClient (Js.lit "localhost:" +++ port) ;;
  initResp <-
    (stream <- client_init client false ;;
     resp <- deliver (fun (_ : option InitResp) data => ret (Some data))
               (data stream) None ;;
     match ending stream with
     | ended => ret resp
     | errored err => throw (StreamError err)
     end) ;;
  instance <- getInstance_of initResp ;;
  match instance with
  | None =>
      throw (Error (Js.lit "Could not retrieve instance from the initialize response."))
  | Some instance =>
      updateIndexes {| client := client; instance := instance |} ;;
      ret {| client := client; instance := instance |}
  end.

Definition close (c : Client) : M unit := act (Close (client c)).

(** Modelled from the spec: [GrpcClientProvider.reconcileClient], the method
    of the base class that [reconcileClient] reaches through [super]; the
    base class is not part of the sources.  Following the specification of
    [reconcile] in the case where the session is not reused: any current
    session is retired (its connection is released, exactly once), then the
    handshake-and-create path, which is [createClient] and includes the
    index synchronisation, is run for the new endpoint, and the session it
    returns becomes the current one, valid for that endpoint.  A failure of
    the handshake is not caught: it reaches the caller, and the manager is
    left without a session.  For an absent endpoint there is nothing to
    connect to ([createClient] takes no [undefined]; the state machine
    enters the handshake only for a known endpoint), so the manager just
    ends without a session. *)
Definition super_reconcileClient (port : option Js.str) : M unit :=
  current <- this_client ;;
  match current with
  | Some c => close c ;; set_client None ;; set_port None
  | None => set_port None
  end ;;
  match port with
  | Some p =>
      c <- createClient p ;;
      set_client (Some c) ;;
      set_port (Some p)
  | None => ret tt
  end.

Definition reconcileClient (port : option Js.str) : M unit :=
  _port <- this_port ;;
  if Js.truthy_opt port && Js.strict_eq port _port then
    _client <- this_client ;;
    match _client with
    | Some c =>
        updateIndexes c ;;
        fire onClientReadyEmitter
    | None => ret tt
    end
  else
    super_reconcileClient port ;;
    fire onClientReadyEmitter.

End Provider.

(** ** The vocabulary of the specification *)

(** The two index kinds, and the code each name of the specification stands
    for: [syncOne] is [updateIndex] / [updateLibraryIndex], [syncWithRetry]
    is the corresponding loop of [updateIndexes]. *)
Inductive IndexKind := PackageIndex | LibraryIndex.

Definition updated_chunk (k : IndexKind) : Js.str :=
  match k with
  | PackageIndex => index_updated_chunk
  | LibraryIndex => library_index_updated_chunk
  end.

Definition attempt_chunk (k : IndexKind) : Js.str :=
  match k with
  | PackageIndex => Js.lit "Error while updating index in attempt "
  | LibraryIndex => Js.lit "Error while updating library index in attempt "
  end.

Definition unable (k : IndexKind) : OutputMessage :=
  match k with
  | PackageIndex => unable_index
  | LibraryIndex => unable_library_index
  end.

Definition request (k : IndexKind) (inst : Instance) : Request :=
  match k with
  | PackageIndex => UpdateIndexReq inst
  | LibraryIndex => UpdateLibrariesIndexReq inst
  end.

Definition sync_calls (k : IndexKind) (s : State) : nat :=
  match k with
  | PackageIndex => updateIndex_calls s
  | LibraryIndex => updateLibrariesIndex_calls s
  end.

(** The state after [j] more streaming calls of kind [k]. *)
Definition served (k : IndexKind) (j : nat) (s : State) : State :=
  match k with
  | PackageIndex =>
      {| _port := _port s; _client := _client s; init_calls := init_calls s;
         updateIndex_calls := j + updateIndex_calls s;
         updateLibrariesIndex_calls := updateLibrariesIndex_calls s |}
  | LibraryIndex =>
      {| _port := _port s; _client := _client s; init_calls := init_calls s;
         updateIndex_calls := updateIndex_calls s;
         updateLibrariesIndex_calls := j + updateLibrariesIndex_calls s |}
  end.

(** The line reporting that attempt [i] failed with [err]. *)
Definition attempt_failed (k : IndexKind) (i : nat) (err : Js.str) : OutputMessage :=
  failure (attempt_chunk k +++ Js.of_nat i +++ Js.lit ": " +++ err).

Fixpoint starts_with (prefix s : Js.str) : bool :=
  match prefix, s with
  | [], _ => true
  | x :: prefix', y :: s' => N.eqb x y && starts_with prefix' s'
  | _ :: _, [] => false
  end.

(** The error lines of kind [k]: severity [error], and the chunk starts with
    the attempt text of that kind. *)
Definition is_attempt_failed (k : IndexKind) (m : OutputMessage) : bool :=
  match severity m with
  | Some error => starts_with (attempt_chunk k) (chunk m)
  | None => false
  end.

Definition is_unable (k : IndexKind) (m : OutputMessage) : bool :=
  match severity m with
  | Some error => Js.eqb (chunk m) (chunk (unable k))
  | None => false
  end.

Definition is_request (k : IndexKind) (cr : ArduinoCoreClient * Request) : bool :=
  match k, snd cr with
  | PackageIndex, UpdateIndexReq _ => true
  | LibraryIndex, UpdateLibrariesIndexReq _ => true
  | _, _ => false
  end.

Definition is_ended (e : Ending) : bool :=
  match e with
  | ended => true
  | errored _ => false
  end.

Definition emitter_eqb (a b : Emitter) : bool :=
  match a, b with
  | onIndexUpdatedEmitter, onIndexUpdatedEmitter => true
  | onClientReadyEmitter, onClientReadyEmitter => true
  | _, _ => false
  end.

(** How many times emitter [e] fired among some actions. *)
Definition fired_count (e : Emitter) (t : list Action) : nat :=
  length (filter (emitter_eqb e) (fired t)).

(** The state machine of the specification for one stream of Progress Events:
    states [Idle] and [TrackingFile name], and a pure transition function
    giving the next state and the line to emit, if any. *)
Module Spec.

(** A Progress Event carries an optional file name and a completion flag. *)
Record ProgressEvent := { filename : option Js.str; completed : bool }.

Inductive Tracking := Idle | TrackingFile (name : Js.str).

(** "download of <name> completed", in the variant for names with
    whitespace or in the quoted one. *)
Definition download_line (name : Js.str) : OutputMessage :=
  if Js.test_whitespace name
  then info (completed_chunk name)
  else info (download_completed_chunk name).

(** If no file name is tracked and the event carries one, record it.  If the
    event signals completion, emit one line (about the tracked file if there
    is one, the generic line otherwise) and clear the tracked file name. *)
Definition step (generic : OutputMessage) (t : Tracking) (ev : ProgressEvent)
  : Tracking * option OutputMessage :=
  let t1 :=
    match t, filename ev with
    | Idle, Some name => TrackingFile name
    | _, _ => t
    end in
  if completed ev then
    (Idle,
     Some match t1 with
          | TrackingFile name => download_line name
          | Idle => generic
          end)
  else (t1, None).

Fixpoint lines_from (generic : OutputMessage) (t : Tracking) (evs : list ProgressEvent)
  : list OutputMessage :=
  match evs with
  | [] => []
  | ev :: rest =>
      match snd (step generic t ev) with
      | Some line => line :: lines_from generic (fst (step generic t ev)) rest
      | None => lines_from generic (fst (step generic t ev)) rest
      end
  end.

Fixpoint state_after (generic : OutputMessage) (t : Tracking) (evs : list ProgressEvent)
  : Tracking :=
  match evs with
  | [] => t
  | ev :: rest => state_after generic (fst (step generic t ev)) rest
  end.

(** The lines of a whole stream: tracking starts from [Idle]. *)
Definition lines (generic : OutputMessage) (evs : list ProgressEvent) : list OutputMessage :=
  lines_from generic Idle evs.

Definition completions (evs : list ProgressEvent) : nat :=
  length (filter completed evs).

End Spec.

(** The Progress Events among the messages of a stream: the messages that
    carry a download progress; the file name is present when it is not the
    empty string. *)
Fixpoint progress_events (msgs : list UpdateIndexResp) : list Spec.ProgressEvent :=
  match msgs with
  | [] => []
  | o :: rest =>
      match getDownloadProgress o with
      | Some progress =>
          {| Spec.filename :=
               if Js.truthy (getFile progress) then Some (getFile progress) else None;
             Spec.completed := getCompleted progress |}
          :: progress_events rest
      | None => progress_events rest
      end
  end.

(** What the local [file] of the listener stands for in the state machine. *)
Definition tracking (file : option Js.str) : Spec.Tracking :=
  match file with
  | Some (c :: f) => Spec.TrackingFile (c :: f)
  | _ => Spec.Idle
  end.

Section Views.

Variable daemon : Daemon.

Definition sync_stream (k : IndexKind) (n : nat) : Stream UpdateIndexResp :=
  match k with
  | PackageIndex => updateIndex_stream daemon n
  | LibraryIndex => updateLibrariesIndex_stream daemon n
  end.

Definition syncOne (k : IndexKind) (c : Client) : M unit :=
  match k with
  | PackageIndex => updateIndex daemon c
  | LibraryIndex => updateLibraryIndex daemon c
  end.

Definition syncWithRetry (k : IndexKind) (c : Client) : M bool :=
  for_loop 10 0 (try_update (syncOne k c) (attempt_chunk k)) true.

(** How many of the [a] streams of kind [k] served from the [n]-th on end
    with an error. *)
Definition failures (k : IndexKind) (n a : nat) : nat :=
  length (filter (fun j => negb (is_ended (ending (sync_stream k j)))) (seq n a)).

(** The actions of one attempt served by the [n]-th stream: the call, then
    the completion lines of the stream. *)
Definition attempt_actions (k : IndexKind) (c : Client) (n : nat) : list Action :=
  Call (client c) (request k (instance c))
  :: map Append
       (Spec.lines (info (updated_chunk k))
          (progress_events (data (sync_stream k n)))).

Definition attempt_outcome (k : IndexKind) (n : nat) : Outcome unit :=
  match ending (sync_stream k n) with
  | ended => Returned tt
  | errored err => Threw (StreamError err)
  end.

(** The actions of a retry loop with [fuel] iterations left, at loop
    counter [i], when the next stream to be served is the [n]-th. *)
Fixpoint retry_actions (k : IndexKind) (c : Client) (fuel i n : nat) : list Action :=
  match fuel with
  | 0 => []
  | S fuel' =>
      attempt_actions k c n
      ++ match ending (sync_stream k n) with
         | ended => []
         | errored err =>
             Append (attempt_failed k i err) :: retry_actions k c fuel' (S i) (S n)
         end
  end.

(** How many attempts the loop makes. *)
Fixpoint attempts (k : IndexKind) (fuel n : nat) : nat :=
  match fuel with
  | 0 => 0
  | S fuel' =>
      match ending (sync_stream k n) with
      | ended => 1
      | errored _ => S (attempts k fuel' (S n))
      end
  end.

(** Whether one of the attempts succeeds. *)
Fixpoint succeeds (k : IndexKind) (fuel n : nat) : bool :=
  match fuel with
  | 0 => false
  | S fuel' =>
      match ending (sync_stream k n) with
      | ended => true
      | errored _ => succeeds k fuel' (S n)
      end
  end.

(** The completion lines of the [n]-th stream of a kind. *)
Definition stream_lines (k : IndexKind) (n : nat) : list OutputMessage :=
  Spec.lines (info (updated_chunk k)) (progress_events (data (sync_stream k n))).

(** The error the [n]-th stream of a kind ends with (the empty string when
    it ends well). *)
Definition stream_error (k : IndexKind) (n : nat) : Js.str :=
  match ending (sync_stream k n) with
  | ended => []
  | errored err => err
  end.

(** How many of the streams served from the [n]-th on end in an error before
    the first that ends well, counting at most [fuel] of them. *)
Fixpoint leading_failures (k : IndexKind) (fuel n : nat) : nat :=
  match fuel with
  | 0 => 0
  | S fuel' =>
      match ending (sync_stream k n) with
      | ended => 0
      | errored _ => S (leading_failures k fuel' (S n))
      end
  end.

(** The completed Progress Events of the [a] streams of a kind served from
    the [n]-th on, all together. *)
Definition completions_served (k : IndexKind) (n a : nat) : nat :=
  list_sum
    (map (fun j => Spec.completions (progress_events (data (sync_stream k j))))
       (seq n a)).

End Views.

(** How many lines satisfying [p] some actions put in the sink. *)
Definition count_lines (p : OutputMessage -> bool) (t : list Action) : nat :=
  length (filter p (sink t)).


(** The message [createClient] keeps from the init stream: the last one. *)
Definition last_message (msgs : list InitResp) : option InitResp :=
  fold_left (fun _ data => Some data) msgs None.

(** The error [createClient] throws when the response has no instance: the
    InitializationError of the specification. *)
Definition initialization_error : Thrown :=
  Error (Js.lit "Could not retrieve instance from the initialize response.").

(** The error the engine raises for [initResp.getInstance()] when [initResp]
    is [undefined] (the wording of the message is the engine's). *)
Definition undefined_response_error : Thrown :=
  TypeError (Js.lit "Cannot read property 'getInstance' of undefined").

(** What the handshake of [createClient] makes of an init stream. *)
Definition handshake (st : Stream InitResp) : Outcome Instance :=
  match ending st with
  | errored err => Threw (StreamError err)
  | ended =>
      match last_message (data st) with
      | None => Threw undefined_response_error
      | Some resp =>
          match getInstance resp with
          | None => Threw initialization_error
          | Some inst => Returned inst
          end
      end
  end.

(** The channel [createClient] constructs for a port. *)
Definition channel (port : Js.str) : ArduinoCoreClient :=
  {| target := Js.lit "localhost:" +++ port |}.

(** The state after one more [init] call. *)
Definition init_served (s : State) : State :=
  {| _port := _port s; _client := _client s; init_calls := S (init_calls s);
     updateIndex_calls := updateIndex_calls s;
     updateLibrariesIndex_calls := updateLibrariesIndex_calls s |}.

(** The state with the given session fields. *)
Definition with_session (p : option Js.str) (c : option Client) (s : State) : State :=
  {| _port := p; _client := c; init_calls := init_calls s;
     updateIndex_calls := updateIndex_calls s;
     updateLibrariesIndex_calls := updateLibrariesIndex_calls s |}.

(** The test [port && port === this._port] of [reconcileClient]. *)
Definition same_endpoint (port : option Js.str) (s : State) : bool :=
  Js.truthy_opt port && Js.strict_eq port (_port s).

(** The actions retiring the current session, if there is one. *)
Definition retirement (s : State) : list Action :=
  match _client s with
  | Some c => [Close (client c)]
  | None => []
  end.


(** The lines without severity: the completion lines. *)
Definition is_plain (m : OutputMessage) : bool :=
  match severity m with
  | None => true
  | Some _ => false
  end.

(** Whether a message carries a download progress. *)
Definition has_progress (o : UpdateIndexResp) : bool :=
  match getDownloadProgress o with
  | Some _ => true
  | None => false
  end.

(** Whether a message carries a download progress that is not completed, or
    none at all. *)
Definition not_completed (o : UpdateIndexResp) : bool :=
  match getDownloadProgress o with
  | Some progress => negb (getCompleted progress)
  | None => true
  end.

Definition is_init (cr : ArduinoCoreClient * Request) : bool :=
  match snd cr with
  | InitReq _ => true
  | _ => false
  end.

(** ** Concrete inputs *)

Definition instance1 : Instance := {| getId := 1%Z |}.

(** A session on port 50051. *)
Definition client1 : Client :=
  {| client := channel (Js.lit "50051"); instance := instance1 |}.

(** A message reporting progress on [file]. *)
Definition progress (file : string) (completed : bool) : UpdateIndexResp :=
  {| getDownloadProgress :=
       Some {| getFile := Js.lit file; getCompleted := completed |} |}.

(** A stream that ends at once, and one that breaks at once. *)
Definition quiet {A} : Stream A := {| data := []; ending := ended |}.

Definition unavailable {A} : Stream A :=
  {| data := []; ending := errored (Js.lit "Error: 14 UNAVAILABLE: failed to connect") |}.

Definition welcome : Stream InitResp :=
  {| data := [ {| getInstance := None |}; {| getInstance := Some instance1 |} ];
     ending := ended |}.

Definition package_download : Stream UpdateIndexResp :=
  {| data := [ progress "package_index.json" false;
               progress "package_index.json" true;
               progress "" true ];
     ending := ended |}.

Definition library_download : Stream UpdateLibrariesIndexResp :=
  {| data := [ progress "library index.json" true ]; ending := ended |}.

(** A daemon that always answers well. *)
Definition healthy : Daemon :=
  {| init_stream := fun _ => welcome;
     updateIndex_stream := fun _ => package_download;
     updateLibrariesIndex_stream := fun _ => library_download |}.

(** A daemon whose package index never updates, and whose library index
    updates at the third attempt. *)
Definition package_index_down : Daemon :=
  {| init_stream := fun _ => welcome;
     updateIndex_stream := fun _ => unavailable;
     updateLibrariesIndex_stream :=
       fun n => if n <? 2 then unavailable else library_download |}.

(** A daemon whose init stream ends after a message without instance. *)
Definition no_instance : Daemon :=
  {| init_stream := fun _ => {| data := [ {| getInstance := None |} ]; ending := ended |};
     updateIndex_stream := fun _ => package_download;
     updateLibrariesIndex_stream := fun _ => library_download |}.

(** A daemon whose init stream ends without any message. *)
Definition silent_init : Daemon :=
  {| init_stream := fun _ => quiet;
     updateIndex_stream := fun _ => package_download;
     updateLibrariesIndex_stream := fun _ => library_download |}.

(** A daemon whose init stream breaks after it has delivered an instance. *)
Definition init_breaks : Daemon :=
  {| init_stream :=
       fun _ => {| data := [ {| getInstance := Some instance1 |} ];
                   ending := errored (Js.lit "Error: 14 UNAVAILABLE: failed to connect") |};
     updateIndex_stream := fun _ => package_download;
     updateLibrariesIndex_stream := fun _ => library_download |}.

(** A daemon whose package index streams two files, the first one announced
    before it completes under the name of the second. *)
Definition two_files : Daemon :=
  {| init_stream := fun _ => welcome;
     updateIndex_stream :=
       fun _ => {| data := [ progress "package_index.json" false;
                             progress "package_index.json.sig" false;
                             {| getDownloadProgress := None |};
                             progress "package_index.json.sig" true;
                             progress "second.json" true ];
                   ending := ended |};
     updateLibrariesIndex_stream := fun _ => library_download |}.

(** The provider with a recorded endpoint but no session. *)
Definition endpoint_without_session : State :=
  {| _port := Some (Js.lit "50051"); _client := None;
     init_calls := 1; updateIndex_calls := 0; updateLibrariesIndex_calls := 0 |}.

Unset Implicit Arguments.

(** ** Running computations *)

Lemma bind_run {A B} (m : M A) (k : A -> M B) s :
  bind m k s = andThen (m s) k throw.
Proof. reflexivity. Qed.

Lemma andThen_returned {A B} (a : A) s t (k : A -> M B) h :
  andThen {| outcome := Returned a; final := s; did := t |} k h = after t (k a s).
Proof. reflexivity. Qed.

Lemma andThen_threw {A B} e s t (k : A -> M B) h :
  andThen {| outcome := Threw e; final := s; did := t |} k h = after t (h e s).
Proof. reflexivity. Qed.

Lemma after_nil {A} (r : Result A) : after [] r = r.
Proof. destruct r. reflexivity. Qed.

Lemma after_after {A} t u (r : Result A) : after t (after u r) = after (t ++ u) r.
Proof. unfold after. cbn [outcome final did]. rewrite app_assoc. reflexivity. Qed.

Lemma andThen_after {A B} t (r : Result A) (k : A -> M B) h :
  andThen (after t r) k h = after t (andThen r k h).
Proof. unfold andThen. cbn [after outcome final did]. rewrite after_after. reflexivity. Qed.

Lemma after_result {A} t (o : Outcome A) s u :
  after t {| outcome := o; final := s; did := u |}
  = {| outcome := o; final := s; did := t ++ u |}.
Proof. reflexivity. Qed.

(** Push a computation one step further. *)
Ltac run :=
  repeat first
    [ rewrite bind_run | rewrite andThen_after | rewrite andThen_returned
    | rewrite andThen_threw | rewrite after_nil | rewrite after_after ].

(** ** Reading traces *)

Lemma sink_app (t u : list Action) : sink (t ++ u) = sink t ++ sink u.
Proof.
  induction t as [|a t IH]; simpl; [reflexivity|].
  destruct a; simpl; rewrite IH; reflexivity.
Qed.

Lemma fired_app (t u : list Action) : fired (t ++ u) = fired t ++ fired u.
Proof.
  induction t as [|a t IH]; simpl; [reflexivity|].
  destruct a; simpl; rewrite IH; reflexivity.
Qed.

Lemma constructed_app (t u : list Action) :
  constructed (t ++ u) = constructed t ++ constructed u.
Proof.
  induction t as [|a t IH]; simpl; [reflexivity|].
  destruct a; simpl; rewrite IH; reflexivity.
Qed.

Lemma calls_app (t u : list Action) : calls (t ++ u) = calls t ++ calls u.
Proof.
  induction t as [|a t IH]; simpl; [reflexivity|].
  destruct a; simpl; rewrite IH; reflexivity.
Qed.

Lemma closed_app (t u : list Action) : closed (t ++ u) = closed t ++ closed u.
Proof.
  induction t as [|a t IH]; simpl; [reflexivity|].
  destruct a; simpl; rewrite IH; reflexivity.
Qed.

Lemma closed_appends (l : list OutputMessage) : closed (map Append l) = [].
Proof. induction l as [|m l IH]; simpl; congruence. Qed.

Lemma sink_appends (l : list OutputMessage) : sink (map Append l) = l.
Proof. induction l as [|m l IH]; simpl; congruence. Qed.

Lemma fired_appends (l : list OutputMessage) : fired (map Append l) = [].
Proof. induction l as [|m l IH]; simpl; congruence. Qed.

Lemma constructed_appends (l : list OutputMessage) : constructed (map Append l) = [].
Proof. induction l as [|m l IH]; simpl; congruence. Qed.

Lemma calls_appends (l : list OutputMessage) : calls (map Append l) = [].
Proof. induction l as [|m l IH]; simpl; congruence. Qed.

Lemma fired_count_app (e : Emitter) (t u : list Action) :
  fired_count e (t ++ u) = fired_count e t + fired_count e u.
Proof.
  unfold fired_count. rewrite fired_app, filter_app, length_app. reflexivity.
Qed.

(** ** One stream of Progress Events *)

Module SpecFacts.

Import Spec.

Lemma lines_from_app g t evs evs' :
  lines_from g t (evs ++ evs')
  = lines_from g t evs ++ lines_from g (state_after g t evs) evs'.
Proof.
  revert t. induction evs as [|ev evs IH]; intro t; simpl; [reflexivity|].
  destruct (snd (step g t ev)); simpl; rewrite IH; reflexivity.
Qed.

Lemma state_after_app g t evs evs' :
  state_after g t (evs ++ evs') = state_after g (state_after g t evs) evs'.
Proof.
  revert t. induction evs as [|ev evs IH]; intro t; simpl; [reflexivity|].
  apply IH.
Qed.

(** One line per completed event, whatever the tracking state. *)
Lemma length_lines_from g t evs :
  length (lines_from g t evs) = completions evs.
Proof.
  unfold completions.
  revert t. induction evs as [|ev evs IH]; intro t; simpl; [reflexivity|].
  unfold step. destruct (completed ev); simpl; rewrite IH; reflexivity.
Qed.

(** Tracking is cleared by a completed event. *)
Lemma step_completed g t ev :
  completed ev = true -> fst (step g t ev) = Idle.
Proof. unfold step. intros ->. reflexivity. Qed.

Lemma download_line_info name : severity (download_line name) = None.
Proof. unfold download_line. destruct (Js.test_whitespace name); reflexivity. Qed.

(** All the lines of the state machine are plain ones when the generic
    line is. *)
Lemma lines_from_info g t evs :
  severity g = None ->
  Forall (fun m => severity m = None) (lines_from g t evs).
Proof.
  intro Hg. revert t.
  induction evs as [|ev evs IH]; intro t; simpl; [constructor|].
  unfold step.
  destruct (completed ev); simpl; [constructor|]; try apply IH.
  destruct t; destruct (filename ev); simpl;
    auto using download_line_info.
Qed.

End SpecFacts.

Section Streams.

Variable daemon : Daemon.

(** The listener does one transition of the state machine. *)
Lemma on_data_step updated file o s :
  exists file',
    on_data updated file o s
    = {| outcome := Returned file'; final := s;
         did := map Append
                  (Spec.lines_from (info updated) (tracking file)
                     (progress_events [o])) |}
    /\ tracking file'
       = Spec.state_after (info updated) (tracking file) (progress_events [o]).
Proof.
  unfold on_data, Spec.download_line.
  destruct (getDownloadProgress o) as [p|] eqn:Hp; simpl; rewrite Hp; simpl.
  - destruct file as [[|c f]|]; destruct (getFile p) as [|c' f'] eqn:Hf;
      destruct (getCompleted p) eqn:Hc; simpl;
      unfold Spec.step, Spec.download_line; simpl; rewrite ?Hc; simpl;
      unfold bind, andThen, after, toolOutputService_append, act, ret; simpl;
      try (eexists; split; reflexivity);
      match goal with
      | |- context [Js.test_whitespace ?l] =>
          destruct (Js.test_whitespace l) eqn:Hw
      end; simpl; eexists; split; reflexivity.
  - eexists; split; reflexivity.
Qed.

Lemma progress_events_cons o msgs :
  progress_events (o :: msgs) = progress_events [o] ++ progress_events msgs.
Proof.
  simpl. destruct (getDownloadProgress o); simpl; rewrite ?app_nil_r; reflexivity.
Qed.

(** Delivering a whole stream runs the state machine over its Progress
    Events. *)
Lemma deliver_on_data updated msgs : forall file s,
  exists file',
    deliver (on_data updated) msgs file s
    = {| outcome := Returned file'; final := s;
         did := map Append
                  (Spec.lines_from (info updated) (tracking file)
                     (progress_events msgs)) |}
    /\ tracking file'
       = Spec.state_after (info updated) (tracking file) (progress_events msgs).
Proof.
  induction msgs as [|o msgs IH]; intros file s.
  - exists file. split; reflexivity.
  - destruct (on_data_step updated file o s) as (f1 & E1 & T1).
    destruct (IH f1 s) as (f2 & E2 & T2).
    exists f2. rewrite progress_events_cons.
    rewrite SpecFacts.lines_from_app, SpecFacts.state_after_app, map_app.
    rewrite <- T1. split; [|exact T2].
    simpl. unfold bind, andThen, after. rewrite E1. simpl. rewrite E2. reflexivity.
Qed.

Lemma served_served k a b s : served k a (served k b s) = served k (a + b) s.
Proof. destruct k; simpl; rewrite Nat.add_assoc; reflexivity. Qed.

Lemma served_0 k s : served k 0 s = s.
Proof. destruct k, s; reflexivity. Qed.

Lemma sync_calls_served k j s : sync_calls k (served k j s) = j + sync_calls k s.
Proof. destruct k; reflexivity. Qed.

Lemma syncOne_run k c s :
  syncOne daemon k c s
  = {| outcome := attempt_outcome daemon k (sync_calls k s);
       final := served k 1 s;
       did := attempt_actions daemon k c (sync_calls k s) |}.
Proof.
  unfold attempt_outcome, attempt_actions, Spec.lines.
  destruct k; simpl;
    [ unfold updateIndex | unfold updateLibraryIndex ];
    unfold bind, andThen, after; simpl;
    match goal with
    | |- context [deliver (on_data ?u) ?m None ?st] =>
        destruct (deliver_on_data u m None st) as (f & E & _); rewrite E
    end; simpl;
    match goal with
    | |- context [ending ?x] => destruct (ending x)
    end; simpl; rewrite ?app_nil_r; reflexivity.
Qed.

End Streams.

(** ** The retry loops of [updateIndexes] *)

Section Retry.

Variable daemon : Daemon.

Lemma for_loop_S {L} n i (body : nat -> L -> M (bool * L)) l s :
  for_loop (S n) i body l s
  = andThen (body i l s)
      (fun r => if fst r then ret (snd r) else for_loop n (S i) body (snd r))
      throw.
Proof. reflexivity. Qed.

Lemma try_update_run update attempt i flag s :
  try_update update attempt i flag s
  = match outcome (update s) with
    | Returned _ =>
        {| outcome := Returned (true, true); final := final (update s);
           did := did (update s) |}
    | Threw e =>
        {| outcome := Returned (false, flag); final := final (update s);
           did := did (update s)
                  ++ [Append (failure (attempt +++ Js.of_nat i
                                       +++ Js.lit ": " +++ String_of e))] |}
    end.
Proof.
  unfold try_update, try_catch, andThen, bind, andThen, after,
    toolOutputService_append, act, ret.
  destruct (outcome (update s)); cbn [outcome final did];
    rewrite ?app_nil_r; reflexivity.
Qed.

Lemma retry_run k c : forall fuel i flag s,
  for_loop fuel i (try_update (syncOne daemon k c) (attempt_chunk k)) flag s
  = {| outcome := Returned (succeeds daemon k fuel (sync_calls k s) || flag);
       final := served k (attempts daemon k fuel (sync_calls k s)) s;
       did := retry_actions daemon k c fuel i (sync_calls k s) |}.
Proof.
  induction fuel as [|fuel IH]; intros i flag s.
  - simpl. unfold ret. rewrite served_0. reflexivity.
  - rewrite for_loop_S, try_update_run, syncOne_run.
    cbn [outcome final did retry_actions attempts succeeds].
    unfold attempt_outcome.
    destruct (ending (sync_stream daemon k (sync_calls k s))) as [|err];
      unfold andThen, after; cbn [outcome final did fst snd].
    + unfold ret. cbn [outcome final did]. rewrite app_nil_r. reflexivity.
    + rewrite IH, sync_calls_served, served_served. cbn [outcome final did String_of].
      rewrite Nat.add_1_r. unfold attempt_failed.
      rewrite <- !app_assoc. reflexivity.
Qed.

End Retry.


Section Synchroniser.

Variable daemon : Daemon.

(** [updateIndexes] is the two retry loops in sequence, each followed by
    the test of its flag, then the test of both flags. *)
Lemma updateIndexes_unfold c :
  updateIndexes daemon c
  = (a <- syncWithRetry daemon PackageIndex c ;;
     (if negb a then toolOutputService_append (unable PackageIndex) else ret tt) ;;
     b <- syncWithRetry daemon LibraryIndex c ;;
     (if negb b then toolOutputService_append (unable LibraryIndex) else ret tt) ;;
     if a && b then fire onIndexUpdatedEmitter else ret tt).
Proof. reflexivity. Qed.

Lemma syncWithRetry_run k c s :
  syncWithRetry daemon k c s
  = {| outcome := Returned true;
       final := served k (attempts daemon k 10 (sync_calls k s)) s;
       did := retry_actions daemon k c 10 0 (sync_calls k s) |}.
Proof.
  unfold syncWithRetry. rewrite retry_run, orb_true_r. reflexivity.
Qed.

Lemma updateIndexes_run c s :
  updateIndexes daemon c s
  = {| outcome := Returned tt;
       final :=
         served LibraryIndex (attempts daemon LibraryIndex 10 (updateLibrariesIndex_calls s))
           (served PackageIndex (attempts daemon PackageIndex 10 (updateIndex_calls s)) s);
       did :=
         retry_actions daemon PackageIndex c 10 0 (updateIndex_calls s)
         ++ retry_actions daemon LibraryIndex c 10 0 (updateLibrariesIndex_calls s)
         ++ [Fire onIndexUpdatedEmitter] |}.
Proof.
  rewrite updateIndexes_unfold.
  rewrite bind_run, syncWithRetry_run, andThen_returned. cbn [negb].
  rewrite bind_run. unfold ret at 1. rewrite andThen_returned.
  rewrite bind_run, syncWithRetry_run, andThen_returned. cbn [negb andb].
  rewrite bind_run. unfold ret at 1. rewrite andThen_returned.
  unfold fire, act, after. cbn [outcome final did app].
  reflexivity.
Qed.

End Synchroniser.

(** ** What a retry loop leaves in the trace *)

Lemma count_lines_app p t u : count_lines p (t ++ u) = count_lines p t + count_lines p u.
Proof. unfold count_lines. rewrite sink_app, filter_app, length_app. reflexivity. Qed.

Lemma filter_plain (p : OutputMessage -> bool) (l : list OutputMessage) :
  (forall m, severity m = None -> p m = false) ->
  Forall (fun m => severity m = None) l ->
  filter p l = [].
Proof.
  intros Hp Hl. induction Hl as [|m l Hm _ IH]; simpl; [reflexivity|].
  rewrite (Hp m Hm). exact IH.
Qed.

Lemma starts_with_app (prefix rest : Js.str) : starts_with prefix (prefix ++ rest) = true.
Proof.
  induction prefix as [|x prefix IH]; simpl; [reflexivity|].
  rewrite N.eqb_refl. exact IH.
Qed.

Lemma is_attempt_failed_plain k m : severity m = None -> is_attempt_failed k m = false.
Proof. unfold is_attempt_failed. intros ->. reflexivity. Qed.

Lemma is_unable_plain k m : severity m = None -> is_unable k m = false.
Proof. unfold is_unable. intros ->. reflexivity. Qed.

Lemma is_attempt_failed_own k i err : is_attempt_failed k (attempt_failed k i err) = true.
Proof. unfold is_attempt_failed, attempt_failed. simpl. apply starts_with_app. Qed.

Lemma is_attempt_failed_other k k' i err :
  k <> k' -> is_attempt_failed k' (attempt_failed k i err) = false.
Proof. destruct k, k'; intro H; try congruence; reflexivity. Qed.

Lemma is_unable_attempt_failed k k' i err : is_unable k' (attempt_failed k i err) = false.
Proof. destruct k, k'; reflexivity. Qed.

Section RetryFacts.

Variable daemon : Daemon.

Lemma attempts_le k : forall fuel n, attempts daemon k fuel n <= fuel.
Proof.
  induction fuel as [|fuel IH]; intro n; cbn [attempts]; [lia|].
  destruct (ending (sync_stream daemon k n)); [lia|].
  specialize (IH (S n)). lia.
Qed.

Lemma attempts_pos k fuel n : 1 <= attempts daemon k (S fuel) n.
Proof. cbn [attempts]. destruct (ending (sync_stream daemon k n)); lia. Qed.

Lemma fired_attempt k c n : fired (attempt_actions daemon k c n) = [].
Proof. unfold attempt_actions. simpl. apply fired_appends. Qed.

Lemma constructed_attempt k c n : constructed (attempt_actions daemon k c n) = [].
Proof. unfold attempt_actions. simpl. apply constructed_appends. Qed.

Lemma calls_attempt k c n :
  calls (attempt_actions daemon k c n) = [(client c, request k (instance c))].
Proof. unfold attempt_actions. simpl. rewrite calls_appends. reflexivity. Qed.

Lemma sink_attempt k c n :
  sink (attempt_actions daemon k c n)
  = Spec.lines (info (updated_chunk k))
      (progress_events (data (sync_stream daemon k n))).
Proof. unfold attempt_actions. simpl. apply sink_appends. Qed.

Lemma count_plain_attempt p k c n :
  (forall m, severity m = None -> p m = false) ->
  count_lines p (attempt_actions daemon k c n) = 0.
Proof.
  intro Hp. unfold count_lines. rewrite sink_attempt, filter_plain; trivial.
  apply SpecFacts.lines_from_info. reflexivity.
Qed.

Lemma closed_attempt k c n : closed (attempt_actions daemon k c n) = [].
Proof. unfold attempt_actions. simpl. apply closed_appends. Qed.

Lemma closed_retry k c : forall fuel i n, closed (retry_actions daemon k c fuel i n) = [].
Proof.
  induction fuel as [|fuel IH]; intros i n; cbn [retry_actions]; [reflexivity|].
  rewrite closed_app, closed_attempt.
  destruct (ending (sync_stream daemon k n)); simpl; auto.
Qed.

Lemma fired_retry k c : forall fuel i n, fired (retry_actions daemon k c fuel i n) = [].
Proof.
  induction fuel as [|fuel IH]; intros i n; cbn [retry_actions]; [reflexivity|].
  rewrite fired_app, fired_attempt.
  destruct (ending (sync_stream daemon k n)); simpl; auto.
Qed.

Lemma constructed_retry k c : forall fuel i n,
  constructed (retry_actions daemon k c fuel i n) = [].
Proof.
  induction fuel as [|fuel IH]; intros i n; cbn [retry_actions]; [reflexivity|].
  rewrite constructed_app, constructed_attempt.
  destruct (ending (sync_stream daemon k n)); simpl; auto.
Qed.

(** Every call of the loop is the same request on the same channel, once
    per attempt. *)
Lemma calls_retry k c : forall fuel i n,
  calls (retry_actions daemon k c fuel i n)
  = repeat (client c, request k (instance c)) (attempts daemon k fuel n).
Proof.
  induction fuel as [|fuel IH]; intros i n; cbn [retry_actions attempts]; [reflexivity|].
  rewrite calls_app, calls_attempt.
  destruct (ending (sync_stream daemon k n)); simpl; [reflexivity|].
  rewrite IH. reflexivity.
Qed.

Lemma failures_S k n a :
  failures daemon k n (S a)
  = (if is_ended (ending (sync_stream daemon k n)) then 0 else 1)
    + failures daemon k (S n) a.
Proof.
  unfold failures. cbn [seq filter].
  destruct (is_ended (ending (sync_stream daemon k n))); reflexivity.
Qed.

(** One error line of its kind per failed attempt. *)
Lemma count_failed_retry k c : forall fuel i n,
  count_lines (is_attempt_failed k) (retry_actions daemon k c fuel i n)
  = failures daemon k n (attempts daemon k fuel n).
Proof.
  induction fuel as [|fuel IH]; intros i n; cbn [retry_actions attempts]; [reflexivity|].
  rewrite count_lines_app, count_plain_attempt
    by (intro m; apply is_attempt_failed_plain).
  destruct (ending (sync_stream daemon k n)) as [|err] eqn:E.
  - unfold failures. cbn [seq filter]. rewrite E. reflexivity.
  - rewrite failures_S, E. cbn [is_ended].
    change (Append (attempt_failed k i err) :: retry_actions daemon k c fuel (S i) (S n))
      with ([Append (attempt_failed k i err)] ++ retry_actions daemon k c fuel (S i) (S n)).
    rewrite count_lines_app, IH. unfold count_lines. cbn [sink filter].
    rewrite is_attempt_failed_own. reflexivity.
Qed.

(** No error line of the other kind. *)
Lemma count_failed_other k k' c : k <> k' -> forall fuel i n,
  count_lines (is_attempt_failed k') (retry_actions daemon k c fuel i n) = 0.
Proof.
  intro Hk.
  induction fuel as [|fuel IH]; intros i n; cbn [retry_actions]; [reflexivity|].
  rewrite count_lines_app, count_plain_attempt
    by (intro m; apply is_attempt_failed_plain).
  destruct (ending (sync_stream daemon k n)) as [|err]; [reflexivity|].
  change (Append (attempt_failed k i err) :: retry_actions daemon k c fuel (S i) (S n))
    with ([Append (attempt_failed k i err)] ++ retry_actions daemon k c fuel (S i) (S n)).
  rewrite count_lines_app, IH. unfold count_lines. cbn [sink filter].
  rewrite is_attempt_failed_other by assumption. reflexivity.
Qed.

(** The loop itself never emits an "unable to update" line. *)
Lemma count_unable_retry k k' c : forall fuel i n,
  count_lines (is_unable k') (retry_actions daemon k c fuel i n) = 0.
Proof.
  induction fuel as [|fuel IH]; intros i n; cbn [retry_actions]; [reflexivity|].
  rewrite count_lines_app, count_plain_attempt
    by (intro m; apply is_unable_plain).
  destruct (ending (sync_stream daemon k n)) as [|err]; [reflexivity|].
  change (Append (attempt_failed k i err) :: retry_actions daemon k c fuel (S i) (S n))
    with ([Append (attempt_failed k i err)] ++ retry_actions daemon k c fuel (S i) (S n)).
  rewrite count_lines_app, IH. unfold count_lines. cbn [sink filter].
  rewrite is_unable_attempt_failed. reflexivity.
Qed.

(** [j] failures followed by a success, within the bound. *)
Lemma attempts_first_success k : forall fuel n j,
  j < fuel ->
  (forall i, i < j -> is_ended (ending (sync_stream daemon k (n + i))) = false) ->
  is_ended (ending (sync_stream daemon k (n + j))) = true ->
  attempts daemon k fuel n = S j /\ failures daemon k n (S j) = j.
Proof.
  induction fuel as [|fuel IH]; intros n j Hj Hfail Hok; [lia|].
  cbn [attempts]. destruct j as [|j].
  - rewrite Nat.add_0_r in Hok. unfold failures. cbn [seq filter].
    destruct (ending (sync_stream daemon k n)); [split; reflexivity|discriminate].
  - assert (H0 := Hfail 0 ltac:(lia)). rewrite Nat.add_0_r in H0.
    rewrite failures_S, H0.
    destruct (ending (sync_stream daemon k n)); [discriminate|].
    destruct (IH (S n) j) as [Ha Hf]; [lia| | |].
    + intros i Hi. replace (S n + i) with (n + S i) by lia. apply Hfail. lia.
    + replace (S n + j) with (n + S j) by lia. exact Hok.
    + rewrite Ha, Hf. split; reflexivity.
Qed.

(** Nothing but failures. *)
Lemma attempts_all_fail k : forall fuel n,
  (forall i, i < fuel -> is_ended (ending (sync_stream daemon k (n + i))) = false) ->
  attempts daemon k fuel n = fuel /\ failures daemon k n fuel = fuel
  /\ succeeds daemon k fuel n = false.
Proof.
  induction fuel as [|fuel IH]; intros n Hfail; [repeat split|].
  cbn [attempts succeeds].
  assert (H0 := Hfail 0 ltac:(lia)). rewrite Nat.add_0_r in H0.
  rewrite failures_S, H0.
  destruct (ending (sync_stream daemon k n)); [discriminate|].
  destruct (IH (S n)) as (Ha & Hf & Hs).
  - intros i Hi. replace (S n + i) with (n + S i) by lia. apply Hfail. lia.
  - rewrite Ha, Hf, Hs. repeat split.
Qed.

End RetryFacts.

(** ** The handshake and the reconciliation *)


Lemma Js_eqb_eq (a b : Js.str) : Js.eqb a b = true -> a = b.
Proof.
  revert b. induction a as [|x a IH]; destruct b as [|y b]; simpl;
    try reflexivity; try discriminate.
  intro H. apply andb_prop in H. destruct H as [Hx Hab].
  apply N.eqb_eq in Hx. rewrite Hx, (IH b Hab). reflexivity.
Qed.

Section Reconciliation.

Variable daemon : Daemon.

Lemma deliver_last msgs : forall (resp : option InitResp) s,
  deliver (fun (_ : option InitResp) data => ret (Some data)) msgs resp s
  = {| outcome := Returned (fold_left (fun _ data => Some data) msgs resp);
       final := s; did := [] |}.
Proof.
  induction msgs as [|m msgs IH]; intros resp s; [reflexivity|].
  cbn [deliver fold_left]. rewrite bind_run. unfold ret at 1.
  rewrite andThen_returned, after_nil. apply IH.
Qed.

Lemma createClient_run port s :
  createClient daemon port s
  = match handshake (init_stream daemon (init_calls s)) with
    | Threw e =>
        {| outcome := Threw e; final := init_served s;
           did := [Construct (channel port); Call (channel port) (InitReq false)] |}
    | Returned inst =>
        let c := {| client := channel port; instance := inst |} in
        {| outcome := Returned c;
           final := final (updateIndexes daemon c (init_served s));
           did := [Construct (channel port); Call (channel port) (InitReq false)]
                  ++ did (updateIndexes daemon c (init_served s)) |}
    end.
Proof.
  unfold createClient, handshake, last_message.
  rewrite bind_run. unfold new_ArduinoCoreClient at 1. run.
  unfold client_init at 1. run. rewrite deliver_last. run.
  fold (init_served s). fold (channel port).
  destruct (ending (init_stream daemon (init_calls s))) as [|err].
  - unfold ret at 1. run.
    destruct (fold_left _ _ _) as [resp|]; cbn [getInstance_of].
    + unfold ret at 1. run.
      destruct (getInstance resp) as [inst|].
      * run. destruct (updateIndexes daemon _ _) as [[[]|e] s' t] eqn:E.
        -- run. unfold ret, after. cbn [outcome final did app].
           rewrite app_nil_r. reflexivity.
        -- rewrite updateIndexes_run in E. discriminate.
      * reflexivity.
    + reflexivity.
  - reflexivity.
Qed.

Lemma super_reconcileClient_run port s :
  super_reconcileClient daemon port s
  = after (retirement s)
      match port with
      | None => {| outcome := Returned tt; final := with_session None None s; did := [] |}
      | Some p =>
          let r := createClient daemon p (with_session None None s) in
          match outcome r with
          | Returned c =>
              {| outcome := Returned tt;
                 final := with_session (Some p) (Some c) (final r);
                 did := did r |}
          | Threw e => {| outcome := Threw e; final := final r; did := did r |}
          end
      end.
Proof.
  unfold super_reconcileClient, retirement.
  rewrite bind_run. unfold this_client at 1. rewrite andThen_returned, after_nil.
  rewrite bind_run.
  assert (E : (match _client s with
               | Some c => close c;; set_client None;; set_port None
               | None => set_port None
               end) s
              = {| outcome := Returned tt; final := with_session None None s;
                   did := retirement s |}).
  { unfold retirement, close, act, set_client, set_port, with_session.
    destruct (_client s) as [c|] eqn:Hc; [|cbn beta; rewrite Hc; reflexivity].
    run. unfold after. cbn. reflexivity. }
  rewrite E, andThen_returned. unfold retirement. f_equal.
  destruct port as [p|]; [|reflexivity].
  rewrite bind_run.
  destruct (createClient daemon p (with_session None None s)) as [[c|e] s' t];
    cbn [outcome final did].
  - rewrite andThen_returned, bind_run. unfold set_client at 1.
    rewrite andThen_returned, after_nil. unfold set_port, after.
    cbn [outcome final did]. rewrite app_nil_r. reflexivity.
  - rewrite andThen_threw. unfold throw, after. cbn [outcome final did].
    rewrite app_nil_r. reflexivity.
Qed.

(** The endpoint is the session's and the session exists: the session is
    reused. *)
Lemma reconcileClient_reuse port c s :
  same_endpoint port s = true ->
  _client s = Some c ->
  reconcileClient daemon port s
  = {| outcome := Returned tt;
       final := final (updateIndexes daemon c s);
       did := did (updateIndexes daemon c s) ++ [Fire onClientReadyEmitter] |}.
Proof.
  unfold same_endpoint, reconcileClient. intros Hsame Hc.
  rewrite bind_run. unfold this_port at 1. rewrite andThen_returned, after_nil.
  rewrite Hsame, bind_run. unfold this_client at 1.
  rewrite andThen_returned, after_nil, Hc, bind_run, updateIndexes_run.
  rewrite andThen_returned. reflexivity.
Qed.

(** The endpoint is the recorded one but there is no session: nothing is
    done. *)
Lemma reconcileClient_idle port s :
  same_endpoint port s = true ->
  _client s = None ->
  reconcileClient daemon port s = {| outcome := Returned tt; final := s; did := [] |}.
Proof.
  unfold same_endpoint, reconcileClient. intros Hsame Hc.
  rewrite bind_run. unfold this_port at 1. rewrite andThen_returned, after_nil.
  rewrite Hsame, bind_run. unfold this_client at 1.
  rewrite andThen_returned, after_nil, Hc. reflexivity.
Qed.

(** Otherwise the base class reconciles, and "client ready" fires if it
    returns. *)
Lemma reconcileClient_replace port s :
  same_endpoint port s = false ->
  reconcileClient daemon port s
  = let r := super_reconcileClient daemon port s in
    match outcome r with
    | Returned _ =>
        {| outcome := Returned tt; final := final r;
           did := did r ++ [Fire onClientReadyEmitter] |}
    | Threw e => {| outcome := Threw e; final := final r; did := did r |}
    end.
Proof.
  unfold same_endpoint, reconcileClient. intros Hsame.
  rewrite bind_run. unfold this_port at 1. rewrite andThen_returned, after_nil.
  rewrite Hsame, bind_run.
  destruct (super_reconcileClient daemon port s) as [[[]|e] s' t];
    cbn [outcome final did].
  - rewrite andThen_returned. reflexivity.
  - rewrite andThen_threw. unfold throw, after. cbn [outcome final did].
    rewrite app_nil_r. reflexivity.
Qed.

End Reconciliation.

(** ** The index synchroniser *)

Lemma Js_eqb_length (a b : Js.str) : Js.eqb a b = true -> length a = length b.
Proof. intro H. apply Js_eqb_eq in H. rewrite H. reflexivity. Qed.

(** The two phrasings of a file's completion are never the same text. *)
Lemma download_phrasings_differ (name : Js.str) :
  Js.eqb (completed_chunk name) (download_completed_chunk name) = false.
Proof.
  destruct (Js.eqb _ _) eqn:E; [|reflexivity].
  apply Js_eqb_length in E.
  unfold completed_chunk, download_completed_chunk in E.
  rewrite !length_app in E.
  change (length (Js.lit " completed.")) with 11 in E.
  change (length (Js.lit "Download of '")) with 13 in E.
  change (length (Js.lit "' completed.")) with 12 in E.
  change (length (Js.lit "'")) with 1 in E.
  change (length Js.LF) with 1 in E. lia.
Qed.

(** C7. For every stream of Progress Events consumed by [updateIndex] and by
    [updateLibraryIndex], the lines put in the sink are those of the state
    machine of the specification run over the stream from [Idle]: exactly one
    line per completed Progress Event.  On each message the listener emits
    nothing unless the progress is completed; when it is, it emits exactly one
    line, about the file when one is tracked (the name tracked before, or
    else the name this very event carries), in the phrasing for names with
    whitespace or in the quoted one, which differ, and the generic line
    otherwise; and it clears the tracked file name. *)
Theorem completion_line_per_completed_event
    (daemon : Daemon) (c : Client) (s : State)
    (updated : Js.str) (file : option Js.str) (o : UpdateIndexResp) (name : Js.str) :
  (let events :=
     progress_events (data (updateIndex_stream daemon (updateIndex_calls s))) in
   sink (did (updateIndex daemon c s)) = Spec.lines (info index_updated_chunk) events
   /\ length (sink (did (updateIndex daemon c s))) = Spec.completions events)
  /\ (let events :=
        progress_events
          (data (updateLibrariesIndex_stream daemon (updateLibrariesIndex_calls s))) in
      sink (did (updateLibraryIndex daemon c s))
      = Spec.lines (info library_index_updated_chunk) events
      /\ length (sink (did (updateLibraryIndex daemon c s))) = Spec.completions events)
  /\ (let r := on_data updated file o s in
      final r = s
      /\ match getDownloadProgress o with
         | Some progress =>
             if getCompleted progress then
               outcome r = Returned None
               /\ did r
                  = [Append
                       match tracking file, tracking (Some (getFile progress)) with
                       | Spec.TrackingFile tracked, _ => Spec.download_line tracked
                       | Spec.Idle, Spec.TrackingFile carried => Spec.download_line carried
                       | Spec.Idle, Spec.Idle => info updated
                       end]
             else did r = []
         | None => did r = [] /\ outcome r = Returned file
         end)
  /\ Spec.download_line name
     = (if Js.test_whitespace name
        then info (completed_chunk name)
        else info (download_completed_chunk name))
  /\ Js.eqb (completed_chunk name) (download_completed_chunk name) = false.
Proof.
  split; [|split; [|split; [|split]]].
  - change (updateIndex daemon c s) with (syncOne daemon PackageIndex c s).
    rewrite syncOne_run. cbn [did]. rewrite sink_attempt. split; [reflexivity|].
    apply SpecFacts.length_lines_from.
  - change (updateLibraryIndex daemon c s) with (syncOne daemon LibraryIndex c s).
    rewrite syncOne_run. cbn [did]. rewrite sink_attempt. split; [reflexivity|].
    apply SpecFacts.length_lines_from.
  - unfold on_data, Spec.download_line.
    destruct (getDownloadProgress o) as [p|]; [|repeat split].
    destruct file as [[|x f]|]; destruct (getFile p) as [|y g];
      destruct (getCompleted p); cbn [Js.truthy_opt Js.truthy negb andb tracking];
      run; unfold toolOutputService_append, act, ret;
      try (repeat split; reflexivity);
      match goal with
      | |- context [Js.test_whitespace ?l] => destruct (Js.test_whitespace l)
      end; run; repeat split; reflexivity.
  - reflexivity.
  - apply download_phrasings_differ.
Qed.

Lemma is_request_own k (c : ArduinoCoreClient) inst :
  is_request k (c, request k inst) = true.
Proof. destruct k; reflexivity. Qed.

Lemma is_request_other k k' (c : ArduinoCoreClient) inst :
  k <> k' -> is_request k' (c, request k inst) = false.
Proof. destruct k, k'; intro H; try congruence; reflexivity. Qed.

Lemma filter_requests_own k c inst a :
  filter (is_request k) (repeat (c, request k inst) a) = repeat (c, request k inst) a.
Proof.
  induction a as [|a IH]; cbn [repeat filter]; [reflexivity|].
  rewrite is_request_own, IH. reflexivity.
Qed.

Lemma filter_requests_other k k' c inst a :
  k <> k' -> filter (is_request k') (repeat (c, request k inst) a) = [].
Proof.
  intro H. induction a as [|a IH]; cbn [repeat filter]; [reflexivity|].
  rewrite is_request_other by assumption. exact IH.
Qed.

Lemma forallb_requests k c inst a :
  forallb (is_request k) (repeat (c, request k inst) a) = true.
Proof.
  induction a as [|a IH]; cbn [repeat forallb]; [reflexivity|].
  rewrite is_request_own. exact IH.
Qed.

Section SynchroniserFacts.

Variable daemon : Daemon.

(** The retry loop makes at most ten attempts, and at least one. *)
Lemma at_most_ten_attempts k c s :
  1 <= length (calls (did (syncWithRetry daemon k c s))) <= 10.
Proof.
  rewrite syncWithRetry_run. cbn [did]. rewrite calls_retry, repeat_length.
  split; [apply attempts_pos | apply attempts_le].
Qed.

(** After [j < 10] failed attempts and a successful one the loop stops: it
    made [j + 1] attempts, and left [j] error lines and no terminal line. *)
Lemma retry_stops_at_first_success k c s j :
  j < 10 ->
  (forall i, i < j ->
     is_ended (ending (sync_stream daemon k (sync_calls k s + i))) = false) ->
  is_ended (ending (sync_stream daemon k (sync_calls k s + j))) = true ->
  let t := did (syncWithRetry daemon k c s) in
  length (calls t) = S j
  /\ count_lines (is_attempt_failed k) t = j
  /\ count_lines (is_unable k) t = 0.
Proof.
  intros Hj Hfail Hok. rewrite syncWithRetry_run. cbn [did].
  destruct (attempts_first_success daemon k 10 (sync_calls k s) j Hj Hfail Hok)
    as [Ha Hf].
  rewrite calls_retry, repeat_length, count_failed_retry, count_unable_retry, Ha, Hf.
  repeat split.
Qed.

(** The trace of [updateIndexes] in terms of its two loops. *)
Lemma updateIndexes_did c s :
  did (updateIndexes daemon c s)
  = did (syncWithRetry daemon PackageIndex c s)
    ++ did (syncWithRetry daemon LibraryIndex c
              (final (syncWithRetry daemon PackageIndex c s)))
    ++ [Fire onIndexUpdatedEmitter].
Proof.
  rewrite updateIndexes_run, !syncWithRetry_run. cbn [did final]. reflexivity.
Qed.

End SynchroniserFacts.

(** C1. When all of the next ten package-index streams end in an error,
    [updateIndexes] makes ten package-index attempts and leaves ten
    package-index error lines, but no "unable to update the index" line, and
    it fires "index updated": the exhaustion is reported neither to the sink
    nor to the caller. *)
Theorem exhausted_retries_go_unreported (daemon : Daemon) (c : Client) (s : State) :
  (forall i, i < 10 ->
     is_ended (ending (updateIndex_stream daemon (updateIndex_calls s + i))) = false) ->
  let t := did (updateIndexes daemon c s) in
  length (filter (is_request PackageIndex) (calls t)) = 10
  /\ count_lines (is_attempt_failed PackageIndex) t = 10
  /\ count_lines (is_unable PackageIndex) t = 0
  /\ fired t = [onIndexUpdatedEmitter].
Proof.
  intros Hfail t. subst t. rewrite updateIndexes_run. cbn [did].
  destruct (attempts_all_fail daemon PackageIndex 10 (updateIndex_calls s) Hfail)
    as (Ha & Hf & _).
  split; [|split; [|split]].
  - rewrite !calls_app, !calls_retry, !filter_app, filter_requests_own.
    rewrite filter_requests_other by discriminate.
    rewrite !length_app, repeat_length, Ha. reflexivity.
  - rewrite !count_lines_app, count_failed_retry, Ha, Hf.
    rewrite count_failed_other by discriminate. reflexivity.
  - rewrite !count_lines_app, !count_unable_retry. reflexivity.
  - rewrite !fired_app, !fired_retry. reflexivity.
Qed.

Lemma exhausted_retries_go_unreported_witness :
  let t := did (updateIndexes package_index_down client1 initial) in
  length (filter (is_request PackageIndex) (calls t)) = 10
  /\ count_lines (is_attempt_failed PackageIndex) t = 10
  /\ count_lines (is_unable PackageIndex) t = 0
  /\ fired t = [onIndexUpdatedEmitter].
Proof.
  apply (exhausted_retries_go_unreported package_index_down client1 initial).
  intros i Hi. reflexivity.
Defined.

(** C2. [updateIndexes] returns no value, and it fires "index updated"
    exactly once whatever the two synchronisations did: both flags start as
    [true] and are never set to [false]. *)
Theorem index_updated_fires_whatever_the_outcome
    (daemon : Daemon) (c : Client) (s : State) :
  outcome (updateIndexes daemon c s) = Returned tt
  /\ fired (did (updateIndexes daemon c s)) = [onIndexUpdatedEmitter]
  /\ fired (did (updateIndexes package_index_down client1 initial))
     = [onIndexUpdatedEmitter]
  /\ succeeds package_index_down PackageIndex 10 0 = false.
Proof.
  split; [|split; [|split]].
  - rewrite updateIndexes_run. reflexivity.
  - rewrite updateIndexes_run. cbn [did].
    rewrite !fired_app, !fired_retry. reflexivity.
  - rewrite updateIndexes_run. cbn [did].
    rewrite !fired_app, !fired_retry. reflexivity.
  - reflexivity.
Qed.

(** C8. In every run of [updateIndexes] the trace is the trace of the
    package-index loop, then the trace of the library-index loop, then the
    notification: all calls of the first part are package-index calls, all
    calls of the second are library-index calls, so the sink lines of the
    package index precede those of the library index; and the library-index
    loop makes at least one attempt whatever the package-index loop did. *)
Theorem package_index_lines_precede_library_index_lines
    (daemon : Daemon) (c : Client) (s : State) :
  let package := did (syncWithRetry daemon PackageIndex c s) in
  let library :=
    did (syncWithRetry daemon LibraryIndex c
           (final (syncWithRetry daemon PackageIndex c s))) in
  did (updateIndexes daemon c s) = package ++ library ++ [Fire onIndexUpdatedEmitter]
  /\ sink (did (updateIndexes daemon c s)) = sink package ++ sink library
  /\ forallb (is_request PackageIndex) (calls package) = true
  /\ forallb (is_request LibraryIndex) (calls library) = true
  /\ count_lines (is_attempt_failed LibraryIndex) package = 0
  /\ count_lines (is_attempt_failed PackageIndex) library = 0
  /\ 1 <= length (calls library).
Proof.
  cbv zeta. rewrite updateIndexes_did, !sink_app. cbn [sink]. rewrite app_nil_r.
  split; [reflexivity|]. split; [reflexivity|].
  split; [|split; [|split; [|split]]].
  - rewrite syncWithRetry_run. cbn [did]. rewrite calls_retry. apply forallb_requests.
  - rewrite !syncWithRetry_run. cbn [did final]. rewrite calls_retry.
    apply forallb_requests.
  - rewrite syncWithRetry_run. cbn [did]. apply count_failed_other. discriminate.
  - rewrite !syncWithRetry_run. cbn [did final]. apply count_failed_other. discriminate.
  - apply at_most_ten_attempts.
Qed.

(** ** The session manager *)

Section ReconciliationFacts.

Variable daemon : Daemon.

(** The whole of a reconciliation that does not reuse the session. *)
Lemma reconcileClient_replace_run port s :
  same_endpoint port s = false ->
  reconcileClient daemon port s
  = match port with
    | None =>
        {| outcome := Returned tt; final := with_session None None s;
           did := retirement s ++ [Fire onClientReadyEmitter] |}
    | Some p =>
        match handshake (init_stream daemon (init_calls s)) with
        | Threw e =>
            {| outcome := Threw e;
               final := init_served (with_session None None s);
               did := retirement s
                      ++ [Construct (channel p); Call (channel p) (InitReq false)] |}
        | Returned inst =>
            let c := {| client := channel p; instance := inst |} in
            let u := updateIndexes daemon c (init_served (with_session None None s)) in
            {| outcome := Returned tt;
               final := with_session (Some p) (Some c) (final u);
               did := retirement s
                      ++ [Construct (channel p); Call (channel p) (InitReq false)]
                      ++ did u ++ [Fire onClientReadyEmitter] |}
        end
    end.
Proof.
  intro Hsame. rewrite (reconcileClient_replace daemon port s Hsame).
  cbv zeta. rewrite super_reconcileClient_run.
  destruct port as [p|].
  - cbv zeta. rewrite createClient_run.
    change (init_calls (with_session None None s)) with (init_calls s).
    destruct (handshake (init_stream daemon (init_calls s))) as [inst|e];
      cbv zeta; unfold after; cbn [outcome final did];
      rewrite <- ?app_assoc; reflexivity.
  - unfold after. cbn [outcome final did]. rewrite app_nil_r. reflexivity.
Qed.

(** A reconciliation never fires "index updated" or "client ready" before
    its synchronisation is over: the notifications of [updateIndexes]. *)
Lemma fired_updateIndexes c s :
  fired (did (updateIndexes daemon c s)) = [onIndexUpdatedEmitter].
Proof.
  rewrite updateIndexes_run. cbn [did]. rewrite !fired_app, !fired_retry. reflexivity.
Qed.

Lemma constructed_updateIndexes c s : constructed (did (updateIndexes daemon c s)) = [].
Proof.
  rewrite updateIndexes_run. cbn [did].
  rewrite !constructed_app, !constructed_retry. reflexivity.
Qed.

Lemma closed_updateIndexes c s : closed (did (updateIndexes daemon c s)) = [].
Proof.
  rewrite updateIndexes_run. cbn [did].
  rewrite !closed_app, !closed_retry. reflexivity.
Qed.

Lemma calls_updateIndexes c s :
  calls (did (updateIndexes daemon c s))
  = repeat (client c, UpdateIndexReq (instance c))
      (attempts daemon PackageIndex 10 (updateIndex_calls s))
    ++ repeat (client c, UpdateLibrariesIndexReq (instance c))
         (attempts daemon LibraryIndex 10 (updateLibrariesIndex_calls s)).
Proof.
  rewrite updateIndexes_run. cbn [did].
  rewrite !calls_app, !calls_retry. cbn [calls request]. rewrite app_nil_r. reflexivity.
Qed.

Lemma fired_retirement s : fired (retirement s) = [].
Proof. unfold retirement. destruct (_client s); reflexivity. Qed.

Lemma sink_retirement s : sink (retirement s) = [].
Proof. unfold retirement. destruct (_client s); reflexivity. Qed.

End ReconciliationFacts.

(** C9. [updateIndexes] never throws: it always returns.  Each failed attempt
    leaves one error line of its kind in the sink: the error lines of a kind
    are as many as the streams that ended in an error among those served to
    the attempts of that kind.  No failure of the synchronisation aborts what
    runs it: whether [createClient] returns or throws is decided by the
    handshake alone, and a reconciliation that reuses the session returns. *)
Theorem index_sync_failures_stay_local
    (daemon : Daemon) (c : Client) (s : State) (p : Js.str) (port : option Js.str) :
  let r := updateIndexes daemon c s in
  outcome r = Returned tt
  /\ count_lines (is_attempt_failed PackageIndex) (did r)
     = failures daemon PackageIndex (updateIndex_calls s)
         (length (filter (is_request PackageIndex) (calls (did r))))
  /\ count_lines (is_attempt_failed LibraryIndex) (did r)
     = failures daemon LibraryIndex (updateLibrariesIndex_calls s)
         (length (filter (is_request LibraryIndex) (calls (did r))))
  /\ outcome (createClient daemon p s)
     = match handshake (init_stream daemon (init_calls s)) with
       | Returned inst => Returned {| client := channel p; instance := inst |}
       | Threw e => Threw e
       end
  /\ (same_endpoint port s = false
      \/ outcome (reconcileClient daemon port s) = Returned tt).
Proof.
  cbv zeta. rewrite updateIndexes_run. cbn [outcome did].
  split; [reflexivity|]. split; [|split; [|split]].
  - rewrite !calls_app, !calls_retry, !filter_app, filter_requests_own.
    rewrite filter_requests_other by discriminate.
    cbn [calls filter app]. rewrite app_nil_r, repeat_length.
    rewrite !count_lines_app, count_failed_retry.
    rewrite count_failed_other by discriminate.
    unfold count_lines. cbn. lia.
  - rewrite !calls_app, !calls_retry, !filter_app, filter_requests_own.
    rewrite filter_requests_other by discriminate.
    cbn [calls filter app]. rewrite app_nil_r, repeat_length.
    rewrite !count_lines_app, count_failed_retry.
    rewrite count_failed_other by discriminate.
    unfold count_lines. cbn. lia.
  - rewrite createClient_run.
    destruct (handshake (init_stream daemon (init_calls s))); reflexivity.
  - destruct (same_endpoint port s) eqn:Hsame; [right|left; reflexivity].
    destruct (_client s) as [c'|] eqn:Hc.
    + rewrite (reconcileClient_reuse daemon port c' s Hsame Hc). reflexivity.
    + rewrite (reconcileClient_idle daemon port s Hsame Hc). reflexivity.
Qed.

Section HandshakeFacts.

Variable daemon : Daemon.

(** The handshake constructs one channel and issues one init request on it,
    and the instance it returns is the one of the last message received. *)
Lemma createClient_takes_last_instance port s resp inst :
  ending (init_stream daemon (init_calls s)) = ended ->
  last_message (data (init_stream daemon (init_calls s))) = Some resp ->
  getInstance resp = Some inst ->
  let r := createClient daemon port s in
  outcome r = Returned {| client := channel port; instance := inst |}
  /\ constructed (did r) = [channel port]
  /\ filter (fun cr => match snd cr with InitReq _ => true | _ => false end)
       (calls (did r))
     = [(channel port, InitReq false)].
Proof.
  intros He Hl Hi. cbv zeta. rewrite createClient_run.
  unfold handshake. rewrite He, Hl, Hi. cbv zeta. cbn [outcome did].
  split; [reflexivity|]. split.
  - cbn [app constructed]. rewrite constructed_updateIndexes. reflexivity.
  - cbn [app calls filter snd]. rewrite calls_updateIndexes, filter_app.
    f_equal.
    replace (filter _ (repeat _ _)) with (@nil (ArduinoCoreClient * Request)).
    + induction (attempts daemon LibraryIndex 10 _) as [|a IH]; simpl; auto.
    + induction (attempts daemon PackageIndex 10 _) as [|a IH]; simpl; auto.
Qed.

(** The init stream ends after at least one message, and the last message
    has no instance: the error of [createClient] is thrown, before any index
    synchronisation. *)
Lemma createClient_without_instance port s resp :
  ending (init_stream daemon (init_calls s)) = ended ->
  last_message (data (init_stream daemon (init_calls s))) = Some resp ->
  getInstance resp = None ->
  let r := createClient daemon port s in
  outcome r = Threw initialization_error
  /\ did r = [Construct (channel port); Call (channel port) (InitReq false)].
Proof.
  intros He Hl Hi. cbv zeta. rewrite createClient_run.
  unfold handshake. rewrite He, Hl, Hi. split; reflexivity.
Qed.

(** No message with an instance was ever delivered: then neither has the
    last one. *)
Lemma last_message_without_instance msgs resp :
  Forall (fun m => getInstance m = None) msgs ->
  last_message msgs = Some resp ->
  getInstance resp = None.
Proof.
  unfold last_message. intro H.
  assert (G : forall o, (forall r, o = Some r -> getInstance r = None) ->
              forall r, fold_left (fun _ d => Some d) msgs o = Some r ->
                        getInstance r = None).
  { induction H as [|m msgs Hm _ IH]; intros o Ho r; cbn [fold_left].
    - apply Ho.
    - apply IH. intros r' E. injection E as <-. exact Hm. }
  apply G. discriminate.
Qed.

End HandshakeFacts.

(** C4. When the init stream ends without having delivered any message,
    [createClient] does fail, but with the [TypeError] of reading
    [getInstance] from [undefined], not with its own initialization error;
    it has constructed the channel and issued the one init request. *)
Theorem empty_init_stream_is_a_type_error (daemon : Daemon) (port : Js.str) (s : State) :
  data (init_stream daemon (init_calls s)) = [] ->
  ending (init_stream daemon (init_calls s)) = ended ->
  let r := createClient daemon port s in
  outcome r = Threw undefined_response_error
  /\ outcome r <> Threw initialization_error
  /\ did r = [Construct (channel port); Call (channel port) (InitReq false)].
Proof.
  intros Hd He. cbv zeta. rewrite createClient_run.
  unfold handshake. rewrite He, Hd. cbn [last_message fold_left outcome did].
  split; [reflexivity|]. split; [discriminate|reflexivity].
Qed.

Lemma empty_init_stream_is_a_type_error_witness :
  let r := createClient silent_init (Js.lit "50051") initial in
  outcome r = Threw undefined_response_error
  /\ outcome r <> Threw initialization_error
  /\ did r = [Construct (channel (Js.lit "50051"));
              Call (channel (Js.lit "50051")) (InitReq false)].
Proof.
  apply (empty_init_stream_is_a_type_error silent_init (Js.lit "50051") initial);
    reflexivity.
Defined.

(** C6. When the handshake fails with the initialization error (the init
    stream ends, and its last message has no instance), [reconcileClient]
    throws that error to its caller, fires neither "client ready" nor "index
    updated", and leaves the manager without a session. *)
Theorem initialization_error_reaches_the_caller
    (daemon : Daemon) (p : Js.str) (s : State) (resp : InitResp) :
  same_endpoint (Some p) s = false ->
  ending (init_stream daemon (init_calls s)) = ended ->
  last_message (data (init_stream daemon (init_calls s))) = Some resp ->
  getInstance resp = None ->
  let r := reconcileClient daemon (Some p) s in
  outcome r = Threw initialization_error
  /\ fired (did r) = []
  /\ _client (final r) = None
  /\ _port (final r) = None.
Proof.
  intros Hsame He Hl Hi. cbv zeta.
  rewrite (reconcileClient_replace_run daemon (Some p) s Hsame).
  unfold handshake. rewrite He, Hl, Hi. cbn [outcome final did].
  split; [reflexivity|]. split; [|split; reflexivity].
  rewrite fired_app, fired_retirement. reflexivity.
Qed.

Lemma initialization_error_reaches_the_caller_witness :
  let r := reconcileClient no_instance (Some (Js.lit "50051")) initial in
  outcome r = Threw initialization_error
  /\ fired (did r) = []
  /\ _client (final r) = None
  /\ _port (final r) = None.
Proof.
  apply (initialization_error_reaches_the_caller no_instance (Js.lit "50051") initial
           {| getInstance := None |}); reflexivity.
Defined.

(** Counterexample to C3 as stated: when the handshake ends without an
    instance, the reconciliation fires no "client ready" at all; and neither
    does a reconciliation for the recorded endpoint when there is no
    session. *)
Lemma no_client_ready_after_failed_handshake :
  fired_count onClientReadyEmitter
    (did (reconcileClient no_instance (Some (Js.lit "50051")) initial)) <> 1
  /\ fired_count onClientReadyEmitter
       (did (reconcileClient healthy (Some (Js.lit "50051")) endpoint_without_session))
     <> 1.
Proof. split; vm_compute; discriminate. Qed.

(** C3, amended.  Whenever [reconcileClient] returns (the handshake, when one
    is made, did not fail), and unless the endpoint is the recorded one while
    no session exists (then nothing at all is done), "client ready" fires
    exactly once, as the last action of the reconciliation, whatever the
    index synchronisation did. *)
Theorem client_ready_once_when_reconcile_returns
    (daemon : Daemon) (port : option Js.str) (s : State) :
  outcome (reconcileClient daemon port s) = Returned tt ->
  (same_endpoint port s = true -> _client s <> None) ->
  let r := reconcileClient daemon port s in
  fired_count onClientReadyEmitter (did r) = 1
  /\ exists t, did r = t ++ [Fire onClientReadyEmitter]
               /\ fired_count onClientReadyEmitter t = 0.
Proof.
  intros Hret Hsession. cbv zeta.
  assert (G : exists t, did (reconcileClient daemon port s)
                        = t ++ [Fire onClientReadyEmitter]
                        /\ fired_count onClientReadyEmitter t = 0).
  { destruct (same_endpoint port s) eqn:Hsame.
    - destruct (_client s) as [c|] eqn:Hc; [|exfalso; apply Hsession; reflexivity].
      rewrite (reconcileClient_reuse daemon port c s Hsame Hc). cbn [did].
      eexists. split; [reflexivity|].
      unfold fired_count. rewrite fired_updateIndexes. reflexivity.
    - rewrite (reconcileClient_replace_run daemon port s Hsame) in Hret |- *.
      destruct port as [p|].
      + destruct (handshake (init_stream daemon (init_calls s))) as [inst|e];
          [|discriminate Hret].
        cbv zeta. cbn [did].
        exists (retirement s
                ++ [Construct (channel p); Call (channel p) (InitReq false)]
                ++ did (updateIndexes daemon
                          {| client := channel p; instance := inst |}
                          (init_served (with_session None None s)))).
        split; [rewrite <- !app_assoc; reflexivity|].
        unfold fired_count.
        rewrite !fired_app, fired_retirement, fired_updateIndexes. reflexivity.
      + cbn [did]. exists (retirement s). split; [reflexivity|].
        unfold fired_count. rewrite fired_retirement. reflexivity. }
  destruct G as (t & Ht & H0). split; [|exists t; split; assumption].
  rewrite Ht, fired_count_app, H0. reflexivity.
Qed.

Lemma client_ready_once_when_reconcile_returns_witness :
  let r := reconcileClient package_index_down (Some (Js.lit "50051")) initial in
  fired_count onClientReadyEmitter (did r) = 1
  /\ exists t, did r = t ++ [Fire onClientReadyEmitter]
               /\ fired_count onClientReadyEmitter t = 0.
Proof.
  apply (client_ready_once_when_reconcile_returns
           package_index_down (Some (Js.lit "50051")) initial).
  - vm_compute. reflexivity.
  - vm_compute. discriminate.
Defined.



Section Idempotence.

Variable daemon : Daemon.

(** When the next stream of each kind ends well, [updateIndexes] consumes
    exactly these two, and its sink lines are their completion lines: they
    depend on nothing else, neither on the session nor on earlier calls. *)
Lemma updateIndexes_without_failure c s :
  ending (updateIndex_stream daemon (updateIndex_calls s)) = ended ->
  ending (updateLibrariesIndex_stream daemon (updateLibrariesIndex_calls s)) = ended ->
  sink (did (updateIndexes daemon c s))
  = stream_lines daemon PackageIndex (updateIndex_calls s)
    ++ stream_lines daemon LibraryIndex (updateLibrariesIndex_calls s)
  /\ final (updateIndexes daemon c s) = served LibraryIndex 1 (served PackageIndex 1 s).
Proof.
  intros Hp Hl. rewrite updateIndexes_run. cbn [did final].
  change (retry_actions daemon PackageIndex c 10 0 (updateIndex_calls s))
    with (attempt_actions daemon PackageIndex c (updateIndex_calls s)
          ++ match ending (updateIndex_stream daemon (updateIndex_calls s)) with
             | ended => []
             | errored err =>
                 Append (attempt_failed PackageIndex 0 err)
                 :: retry_actions daemon PackageIndex c 9 1 (S (updateIndex_calls s))
             end).
  change (retry_actions daemon LibraryIndex c 10 0 (updateLibrariesIndex_calls s))
    with (attempt_actions daemon LibraryIndex c (updateLibrariesIndex_calls s)
          ++ match ending (updateLibrariesIndex_stream daemon
                             (updateLibrariesIndex_calls s)) with
             | ended => []
             | errored err =>
                 Append (attempt_failed LibraryIndex 0 err)
                 :: retry_actions daemon LibraryIndex c 9 1
                      (S (updateLibrariesIndex_calls s))
             end).
  change (attempts daemon PackageIndex 10 (updateIndex_calls s))
    with (match ending (updateIndex_stream daemon (updateIndex_calls s)) with
          | ended => 1
          | errored _ => S (attempts daemon PackageIndex 9 (S (updateIndex_calls s)))
          end).
  change (attempts daemon LibraryIndex 10 (updateLibrariesIndex_calls s))
    with (match ending (updateLibrariesIndex_stream daemon
                          (updateLibrariesIndex_calls s)) with
          | ended => 1
          | errored _ =>
              S (attempts daemon LibraryIndex 9 (S (updateLibrariesIndex_calls s)))
          end).
  rewrite Hp, Hl, !app_nil_r, !sink_app, !sink_attempt. cbn [sink].
  rewrite app_nil_r. split; reflexivity.
Qed.

End Idempotence.

(** Reconciling twice in a row with the same endpoint puts the same lines in
    the sink each time also when the first reconciliation has to create the
    session, provided nothing fails and the daemon streams the second time
    what it streamed the first time. *)
Lemma reconcile_twice_from_any_state
    (daemon : Daemon) (port : option Js.str) (s : State) :
  let r1 := reconcileClient daemon port s in
  let r2 := reconcileClient daemon port (final r1) in
  outcome r1 = Returned tt ->
  outcome r2 = Returned tt ->
  ending (updateIndex_stream daemon (updateIndex_calls s)) = ended ->
  ending (updateLibrariesIndex_stream daemon (updateLibrariesIndex_calls s)) = ended ->
  updateIndex_stream daemon (S (updateIndex_calls s))
  = updateIndex_stream daemon (updateIndex_calls s) ->
  updateLibrariesIndex_stream daemon (S (updateLibrariesIndex_calls s))
  = updateLibrariesIndex_stream daemon (updateLibrariesIndex_calls s) ->
  sink (did r2) = sink (did r1).
Proof.
  cbv zeta. intros H1 H2 Hp Hl Ep El.
  assert (Hlines : forall c s',
             updateIndex_calls s' = S (updateIndex_calls s) ->
             updateLibrariesIndex_calls s' = S (updateLibrariesIndex_calls s) ->
             sink (did (updateIndexes daemon c s'))
             = stream_lines daemon PackageIndex (updateIndex_calls s)
               ++ stream_lines daemon LibraryIndex (updateLibrariesIndex_calls s)).
  { intros c s' Hcp Hcl.
    destruct (updateIndexes_without_failure daemon c s') as [E _].
    - rewrite Hcp, Ep. exact Hp.
    - rewrite Hcl, El. exact Hl.
    - rewrite E, Hcp, Hcl. unfold stream_lines. cbn [sync_stream].
      rewrite Ep, El. reflexivity. }
  destruct (same_endpoint port s) eqn:Hsame.
  - destruct (_client s) as [c|] eqn:Hc.
    + rewrite (reconcileClient_reuse daemon port c s Hsame Hc) in *.
      cbn [final did] in *.
      destruct (updateIndexes_without_failure daemon c s Hp Hl) as [E1 F1].
      assert (Hsame' : same_endpoint port (final (updateIndexes daemon c s)) = true).
      { rewrite F1. exact Hsame. }
      assert (Hc' : _client (final (updateIndexes daemon c s)) = Some c).
      { rewrite F1. exact Hc. }
      rewrite (reconcileClient_reuse daemon port c _ Hsame' Hc'). cbn [did].
      rewrite !sink_app, E1. cbn [sink]. rewrite !app_nil_r.
      apply Hlines; rewrite F1; reflexivity.
    + rewrite (reconcileClient_idle daemon port s Hsame Hc). cbn [final did].
      rewrite (reconcileClient_idle daemon port s Hsame Hc). reflexivity.
  - rewrite (reconcileClient_replace_run daemon port s Hsame) in *.
    destruct port as [p|].
    + destruct (handshake (init_stream daemon (init_calls s))) as [inst|e];
        [|discriminate H1].
      cbv zeta in *. cbn [final did] in *.
      set (c := {| client := channel p; instance := inst |}) in *.
      set (s0 := init_served (with_session None None s)) in *.
      destruct (updateIndexes_without_failure daemon c s0 Hp Hl) as [E1 F1].
      rewrite !sink_app, sink_retirement, E1. cbn [sink app]. rewrite app_nil_r.
      set (s1 := with_session (Some p) (Some c) (final (updateIndexes daemon c s0))) in *.
      assert (Hcp : updateIndex_calls s1 = S (updateIndex_calls s))
        by (unfold s1; rewrite F1; reflexivity).
      assert (Hcl : updateLibrariesIndex_calls s1 = S (updateLibrariesIndex_calls s))
        by (unfold s1; rewrite F1; reflexivity).
      destruct (same_endpoint (Some p) s1) eqn:Hsame1.
      * assert (Hc1 : _client s1 = Some c) by reflexivity.
        rewrite (reconcileClient_reuse daemon (Some p) c s1 Hsame1 Hc1). cbn [did].
        rewrite sink_app. cbn [sink]. rewrite app_nil_r.
        apply Hlines; assumption.
      * rewrite (reconcileClient_replace_run daemon (Some p) s1 Hsame1) in *.
        destruct (handshake (init_stream daemon (init_calls s1))) as [inst'|e];
          [|discriminate H2].
        cbv zeta. cbn [did].
        rewrite !sink_app, sink_retirement. cbn [sink app]. rewrite app_nil_r.
        apply Hlines; assumption.
    + cbn [final did] in *.
      assert (Hsame0 : same_endpoint None (with_session None None s) = false)
        by reflexivity.
      rewrite (reconcileClient_replace_run daemon None _ Hsame0). cbn [did].
      rewrite !sink_app, !sink_retirement. reflexivity.
Qed.

(** C10. Reconciling twice in a row with the same, unchanged endpoint (the
    endpoint of the current session) puts the same sequence of lines in the
    sink each time, provided nothing fails (the package-index and
    library-index streams served end well) and the daemon streams the second
    time what it streamed the first time.  Each time the lines are the
    completion lines of the two streams served, computed from an untracked
    file name: nothing tracked is carried from one call to the next. *)
Theorem reconcile_twice_same_sink_lines
    (daemon : Daemon) (port : option Js.str) (c : Client) (s : State) :
  let r1 := reconcileClient daemon port s in
  let r2 := reconcileClient daemon port (final r1) in
  same_endpoint port s = true ->
  _client s = Some c ->
  ending (updateIndex_stream daemon (updateIndex_calls s)) = ended ->
  ending (updateLibrariesIndex_stream daemon (updateLibrariesIndex_calls s)) = ended ->
  updateIndex_stream daemon (S (updateIndex_calls s))
  = updateIndex_stream daemon (updateIndex_calls s) ->
  updateLibrariesIndex_stream daemon (S (updateLibrariesIndex_calls s))
  = updateLibrariesIndex_stream daemon (updateLibrariesIndex_calls s) ->
  outcome r1 = Returned tt
  /\ outcome r2 = Returned tt
  /\ sink (did r1)
     = stream_lines daemon PackageIndex (updateIndex_calls s)
       ++ stream_lines daemon LibraryIndex (updateLibrariesIndex_calls s)
  /\ sink (did r2) = sink (did r1).
Proof.
  cbv zeta. intros Hsame Hc Hp Hl Ep El.
  rewrite (reconcileClient_reuse daemon port c s Hsame Hc). cbn [outcome final did].
  destruct (updateIndexes_without_failure daemon c s Hp Hl) as [E1 F1].
  assert (Hsame' : same_endpoint port (final (updateIndexes daemon c s)) = true).
  { rewrite F1. exact Hsame. }
  assert (Hc' : _client (final (updateIndexes daemon c s)) = Some c).
  { rewrite F1. exact Hc. }
  rewrite (reconcileClient_reuse daemon port c _ Hsame' Hc'). cbn [outcome did].
  rewrite !sink_app, E1. cbn [sink]. rewrite !app_nil_r.
  split; [reflexivity|]. split; [reflexivity|]. split; [reflexivity|].
  destruct (updateIndexes_without_failure daemon c
              (final (updateIndexes daemon c s))) as [E2 _].
  - rewrite F1. cbn [served updateIndex_calls Nat.add]. rewrite Ep. exact Hp.
  - rewrite F1. cbn [served updateLibrariesIndex_calls Nat.add]. rewrite El. exact Hl.
  - rewrite E2, F1. unfold stream_lines.
    cbn [served updateIndex_calls updateLibrariesIndex_calls sync_stream Nat.add].
    rewrite Ep, El. reflexivity.
Qed.

Lemma reconcile_twice_same_sink_lines_witness :
  let s := final (reconcileClient healthy (Some (Js.lit "50051")) initial) in
  let r1 := reconcileClient healthy (Some (Js.lit "50051")) s in
  let r2 := reconcileClient healthy (Some (Js.lit "50051")) (final r1) in
  outcome r1 = Returned tt
  /\ outcome r2 = Returned tt
  /\ sink (did r1)
     = stream_lines healthy PackageIndex (updateIndex_calls s)
       ++ stream_lines healthy LibraryIndex (updateLibrariesIndex_calls s)
  /\ sink (did r2) = sink (did r1).
Proof.
  apply (reconcile_twice_same_sink_lines healthy (Some (Js.lit "50051")) client1
           (final (reconcileClient healthy (Some (Js.lit "50051")) initial)));
    vm_compute; reflexivity.
Defined.

(** ** Further properties of the index synchroniser *)

Lemma filter_plain_all (l : list OutputMessage) :
  Forall (fun m => severity m = None) l -> filter is_plain l = l.
Proof.
  intro H. induction H as [|m l Hm _ IH]; simpl; [reflexivity|].
  unfold is_plain at 1. rewrite Hm, IH. reflexivity.
Qed.

Lemma filter_is_init_requests k (c : ArduinoCoreClient) inst a :
  filter is_init (repeat (c, request k inst) a) = [].
Proof. induction a as [|a IH]; [reflexivity|]. destruct k; simpl; exact IH. Qed.

Section SynchroniserExtras.

Variable daemon : Daemon.

Lemma completions_served_S k n a :
  completions_served daemon k n (S a)
  = Spec.completions (progress_events (data (sync_stream daemon k n)))
    + completions_served daemon k (S n) a.
Proof. reflexivity. Qed.

Lemma count_plain_lines_attempt k c n :
  count_lines is_plain (attempt_actions daemon k c n)
  = Spec.completions (progress_events (data (sync_stream daemon k n))).
Proof.
  unfold count_lines. rewrite sink_attempt, filter_plain_all.
  - apply SpecFacts.length_lines_from.
  - apply SpecFacts.lines_from_info. reflexivity.
Qed.

(** The completion lines of a loop: those of every attempt, failed or not. *)
Lemma count_plain_lines_retry k c : forall fuel i n,
  count_lines is_plain (retry_actions daemon k c fuel i n)
  = completions_served daemon k n (attempts daemon k fuel n).
Proof.
  induction fuel as [|fuel IH]; intros i n; cbn [retry_actions attempts]; [reflexivity|].
  rewrite count_lines_app, count_plain_lines_attempt.
  destruct (ending (sync_stream daemon k n)) as [|err].
  - rewrite completions_served_S. reflexivity.
  - rewrite completions_served_S.
    change (Append (attempt_failed k i err) :: retry_actions daemon k c fuel (S i) (S n))
      with ([Append (attempt_failed k i err)] ++ retry_actions daemon k c fuel (S i) (S n)).
    rewrite count_lines_app, IH. reflexivity.
Qed.

(** The error lines of a loop, in order: one per leading failure, numbered
    from the loop counter on, each with the error of its stream. *)
Lemma error_lines_retry k c : forall fuel i n,
  filter (is_attempt_failed k) (sink (retry_actions daemon k c fuel i n))
  = map (fun j => attempt_failed k (i + j) (stream_error daemon k (n + j)))
      (seq 0 (leading_failures daemon k fuel n)).
Proof.
  induction fuel as [|fuel IH]; intros i n;
    cbn [retry_actions leading_failures]; [reflexivity|].
  rewrite sink_app, filter_app, sink_attempt.
  rewrite (filter_plain (is_attempt_failed k))
    by (try (intro m; apply is_attempt_failed_plain);
        apply SpecFacts.lines_from_info; reflexivity).
  cbn [app].
  destruct (ending (sync_stream daemon k n)) as [|err] eqn:E; [reflexivity|].
  cbn [sink filter seq map]. rewrite is_attempt_failed_own, IH.
  rewrite !Nat.add_0_r. f_equal.
  - unfold stream_error. rewrite E. reflexivity.
  - rewrite <- seq_shift, map_map. apply map_ext. intro j.
    rewrite !Nat.add_succ_r. reflexivity.
Qed.

Lemma error_lines_other k k' c : k <> k' -> forall fuel i n,
  filter (is_attempt_failed k') (sink (retry_actions daemon k c fuel i n)) = [].
Proof.
  intros Hk fuel i n. apply length_zero_iff_nil.
  exact (count_failed_other daemon k k' c Hk fuel i n).
Qed.

Lemma leading_failures_le k : forall fuel n, leading_failures daemon k fuel n <= fuel.
Proof.
  induction fuel as [|fuel IH]; intro n; cbn [leading_failures]; [lia|].
  destruct (ending (sync_stream daemon k n)); [lia|].
  specialize (IH (S n)). lia.
Qed.

End SynchroniserExtras.

(** X1. Every run of [updateIndexes] issues at least one and at most ten
    package-index requests and at least one and at most ten library-index
    requests, and no other streaming call: at most twenty calls in all. *)
Theorem updateIndexes_attempt_bounds (daemon : Daemon) (c : Client) (s : State) :
  let t := calls (did (updateIndexes daemon c s)) in
  1 <= length (filter (is_request PackageIndex) t) <= 10
  /\ 1 <= length (filter (is_request LibraryIndex) t) <= 10
  /\ length t
     = length (filter (is_request PackageIndex) t)
       + length (filter (is_request LibraryIndex) t)
  /\ length t <= 20.
Proof.
  cbv zeta. rewrite calls_updateIndexes.
  change (UpdateIndexReq (instance c)) with (request PackageIndex (instance c)).
  change (UpdateLibrariesIndexReq (instance c)) with (request LibraryIndex (instance c)).
  rewrite !filter_app, !filter_requests_own.
  rewrite !filter_requests_other by discriminate.
  rewrite app_nil_r. cbn [app]. rewrite length_app, !repeat_length.
  pose proof (attempts_pos daemon PackageIndex 9 (updateIndex_calls s)).
  pose proof (attempts_le daemon PackageIndex 10 (updateIndex_calls s)).
  pose proof (attempts_pos daemon LibraryIndex 9 (updateLibrariesIndex_calls s)).
  pose proof (attempts_le daemon LibraryIndex 10 (updateLibrariesIndex_calls s)).
  lia.
Qed.

(** X2. In [updateIndexes], when the first [j < 10] streams served for an
    index kind end in an error and the next one ends well, the loop of that
    kind stops there: it issues exactly [j + 1] requests of that kind and
    leaves exactly [j] error lines of that kind in the sink. *)
Theorem updateIndexes_stops_at_first_success
    (daemon : Daemon) (k : IndexKind) (c : Client) (s : State) (j : nat) :
  j < 10 ->
  (forall i, i < j ->
     is_ended (ending (sync_stream daemon k (sync_calls k s + i))) = false) ->
  is_ended (ending (sync_stream daemon k (sync_calls k s + j))) = true ->
  let t := did (updateIndexes daemon c s) in
  length (filter (is_request k) (calls t)) = S j
  /\ count_lines (is_attempt_failed k) t = j.
Proof.
  intros Hj Hfail Hok. cbv zeta.
  destruct (attempts_first_success daemon k 10 (sync_calls k s) j Hj Hfail Hok)
    as [Ha Hf].
  rewrite calls_updateIndexes, updateIndexes_run. cbn [did].
  change (UpdateIndexReq (instance c)) with (request PackageIndex (instance c)).
  change (UpdateLibrariesIndexReq (instance c)) with (request LibraryIndex (instance c)).
  rewrite !count_lines_app, filter_app.
  destruct k; cbn [sync_calls] in Ha, Hf.
  - rewrite filter_requests_own, filter_requests_other by discriminate.
    rewrite app_nil_r, repeat_length, count_failed_retry.
    rewrite count_failed_other by discriminate.
    rewrite Ha, Hf. unfold count_lines. cbn. split; lia.
  - rewrite filter_requests_own, filter_requests_other by discriminate.
    cbn [app]. rewrite repeat_length, count_failed_retry.
    rewrite count_failed_other by discriminate.
    rewrite Ha, Hf. unfold count_lines. cbn. split; lia.
Qed.

Lemma updateIndexes_stops_at_first_success_witness :
  let t := did (updateIndexes package_index_down client1 initial) in
  length (filter (is_request LibraryIndex) (calls t)) = 3
  /\ count_lines (is_attempt_failed LibraryIndex) t = 2.
Proof.
  apply (updateIndexes_stops_at_first_success
           package_index_down LibraryIndex client1 initial 2).
  - lia.
  - intros i Hi. destruct i as [|[|i]]; [reflexivity|reflexivity|lia].
  - reflexivity.
Defined.

(** X3. The error lines of an index kind that [updateIndexes] leaves in the
    sink are, in this order, one line per stream of that kind that ended in
    an error before the first that ended well (at most ten): the line for
    the [j]-th of them is numbered [j], counting from zero, and carries the
    error of that stream. *)
Theorem updateIndexes_error_lines_in_order
    (daemon : Daemon) (k : IndexKind) (c : Client) (s : State) :
  filter (is_attempt_failed k) (sink (did (updateIndexes daemon c s)))
  = map (fun j =>
           failure (attempt_chunk k +++ Js.of_nat j +++ Js.lit ": "
                    +++ stream_error daemon k (sync_calls k s + j)))
      (seq 0 (leading_failures daemon k 10 (sync_calls k s)))
  /\ leading_failures daemon k 10 (sync_calls k s) <= 10.
Proof.
  split; [|apply leading_failures_le].
  rewrite updateIndexes_run. cbn [did].
  rewrite !sink_app, !filter_app. cbn [sink filter]. rewrite app_nil_r.
  destruct k; cbn [sync_calls].
  - rewrite error_lines_retry, (error_lines_other daemon LibraryIndex PackageIndex)
      by discriminate.
    rewrite app_nil_r. reflexivity.
  - rewrite error_lines_retry, (error_lines_other daemon PackageIndex LibraryIndex)
      by discriminate.
    reflexivity.
Qed.

(** X4. The completion lines that [updateIndexes] leaves in the sink are as
    many as the completed Progress Events of all the streams it was served,
    those of the failed attempts included: what an attempt has appended
    before it fails stays, and a retry appends its own lines again. *)
Theorem updateIndexes_completion_lines_of_every_attempt
    (daemon : Daemon) (c : Client) (s : State) :
  let t := did (updateIndexes daemon c s) in
  count_lines is_plain t
  = completions_served daemon PackageIndex (updateIndex_calls s)
      (length (filter (is_request PackageIndex) (calls t)))
    + completions_served daemon LibraryIndex (updateLibrariesIndex_calls s)
        (length (filter (is_request LibraryIndex) (calls t))).
Proof.
  cbv zeta. rewrite calls_updateIndexes.
  change (UpdateIndexReq (instance c)) with (request PackageIndex (instance c)).
  change (UpdateLibrariesIndexReq (instance c)) with (request LibraryIndex (instance c)).
  rewrite !filter_app, !filter_requests_own.
  rewrite !filter_requests_other by discriminate.
  rewrite app_nil_r. cbn [app]. rewrite !repeat_length.
  rewrite updateIndexes_run. cbn [did].
  rewrite !count_lines_app, !count_plain_lines_retry.
  unfold count_lines. cbn. lia.
Qed.

(** X5. No run of [updateIndexes] appends either of the two "Was unable to
    update ... Please restart to try again." lines, whatever the daemon
    streams. *)
Theorem updateIndexes_never_appends_unable_line
    (daemon : Daemon) (k : IndexKind) (c : Client) (s : State) :
  count_lines (is_unable k) (did (updateIndexes daemon c s)) = 0
  /\ filter (fun m => Js.eqb (chunk m) (chunk (unable k)))
       (filter (fun m => negb (is_plain m)) (sink (did (updateIndexes daemon c s))))
     = [].
Proof.
  assert (H : count_lines (is_unable k) (did (updateIndexes daemon c s)) = 0).
  { rewrite updateIndexes_run. cbn [did].
    rewrite !count_lines_app, !count_unable_retry. reflexivity. }
  split; [exact H|].
  unfold count_lines in H. apply length_zero_iff_nil in H.
  revert H. generalize (sink (did (updateIndexes daemon c s))).
  induction l as [|m l IH]; [reflexivity|].
  cbn [filter]. unfold is_unable at 1, is_plain at 1.
  destruct (severity m) as [[]|]; cbn [negb filter].
  - destruct (Js.eqb (chunk m) (chunk (unable k))); [discriminate|]. exact IH.
  - exact IH.
Qed.

(** X6. [updateIndexes] does nothing to the session: it constructs no
    channel, closes none and issues no init request, it leaves [_port] and
    [_client] as they are, and the daemon has served exactly as many more
    streams of each kind as requests of that kind were issued. *)
Theorem updateIndexes_leaves_session_alone (daemon : Daemon) (c : Client) (s : State) :
  let r := updateIndexes daemon c s in
  constructed (did r) = []
  /\ closed (did r) = []
  /\ filter is_init (calls (did r)) = []
  /\ _port (final r) = _port s
  /\ _client (final r) = _client s
  /\ init_calls (final r) = init_calls s
  /\ updateIndex_calls (final r)
     = length (filter (is_request PackageIndex) (calls (did r))) + updateIndex_calls s
  /\ updateLibrariesIndex_calls (final r)
     = length (filter (is_request LibraryIndex) (calls (did r)))
       + updateLibrariesIndex_calls s.
Proof.
  cbv zeta.
  split; [apply constructed_updateIndexes|]. split; [apply closed_updateIndexes|].
  rewrite calls_updateIndexes.
  change (UpdateIndexReq (instance c)) with (request PackageIndex (instance c)).
  change (UpdateLibrariesIndexReq (instance c)) with (request LibraryIndex (instance c)).
  rewrite !filter_app, !filter_is_init_requests, !filter_requests_own.
  rewrite !filter_requests_other by discriminate.
  rewrite !app_nil_r. cbn [app]. rewrite !repeat_length.
  rewrite updateIndexes_run. cbn [final].
  repeat split.
Qed.

(** ** Further properties of the stream listeners *)

Section ListenerExtras.

Variable daemon : Daemon.

(** Delivering two runs of events one after the other. *)
Lemma deliver_app {A L} (listener : L -> A -> M L) (a b : list A) : forall l s,
  deliver listener (a ++ b) l s
  = andThen (deliver listener a l s) (deliver listener b) throw.
Proof.
  induction a as [|e a IH]; intros l s; cbn [app deliver].
  - unfold ret. rewrite andThen_returned, after_nil. reflexivity.
  - rewrite !bind_run.
    destruct (listener l e s) as [[l'|err] s' t].
    + rewrite !andThen_returned, andThen_after, IH. reflexivity.
    + rewrite !andThen_threw, andThen_after. unfold throw.
      rewrite andThen_threw, after_nil. reflexivity.
Qed.

(** A message without a completed progress, while a file is tracked: nothing
    happens. *)
Lemma on_data_not_completed updated x f o s :
  not_completed o = true ->
  on_data updated (Some (x :: f)) o s
  = {| outcome := Returned (Some (x :: f)); final := s; did := [] |}.
Proof.
  unfold not_completed, on_data.
  destruct (getDownloadProgress o) as [p|]; [|reflexivity].
  destruct (getCompleted p); [discriminate|]. reflexivity.
Qed.

Lemma deliver_not_completed updated x f msgs : forall s,
  forallb not_completed msgs = true ->
  deliver (on_data updated) msgs (Some (x :: f)) s
  = {| outcome := Returned (Some (x :: f)); final := s; did := [] |}.
Proof.
  induction msgs as [|o msgs IH]; intros s H; [reflexivity|].
  cbn [forallb] in H. apply andb_prop in H. destruct H as [Ho Hmsgs].
  cbn [deliver]. rewrite bind_run, on_data_not_completed by assumption.
  rewrite andThen_returned, after_nil. apply IH. exact Hmsgs.
Qed.

(** A completed progress clears the tracked file name. *)
Lemma on_data_completed updated file o p s :
  getDownloadProgress o = Some p ->
  getCompleted p = true ->
  outcome (on_data updated file o s) = Returned None
  /\ final (on_data updated file o s) = s.
Proof.
  intros Ho Hp. unfold on_data. rewrite Ho, Hp.
  destruct file as [[|x f]|]; destruct (getFile p) as [|y g];
    cbn [Js.truthy_opt Js.truthy negb andb];
    try (split; reflexivity);
    match goal with
    | |- context [Js.test_whitespace ?l] => destruct (Js.test_whitespace l)
    end; split; reflexivity.
Qed.

End ListenerExtras.

(** X7. The completion line names the first file seen since the last
    completion, not the file of the event that completes: after a message
    announcing the non-empty file name [f], whatever the messages that follow
    without completing, the completed message that comes next gives exactly
    one line, about [f], and clears the tracked name. *)
Theorem first_file_name_is_the_one_reported
    (updated f : Js.str) (rest : list UpdateIndexResp)
    (last : UpdateIndexResp) (p : DownloadProgress) (s : State) :
  Js.truthy f = true ->
  forallb not_completed rest = true ->
  getDownloadProgress last = Some p ->
  getCompleted p = true ->
  let first :=
    {| getDownloadProgress := Some {| getFile := f; getCompleted := false |} |} in
  let r := deliver (on_data updated) (first :: rest ++ [last]) None s in
  outcome r = Returned None
  /\ did r
     = [Append (info (if Js.test_whitespace f
                      then completed_chunk f
                      else download_completed_chunk f))].
Proof.
  intros Hf Hrest Hlast Hp. cbv zeta.
  destruct f as [|x f]; [discriminate|].
  cbn [deliver]. rewrite bind_run.
  change (on_data updated None
            {| getDownloadProgress :=
                 Some {| getFile := x :: f; getCompleted := false |} |} s)
    with {| outcome := Returned (Some (x :: f)); final := s; did := @nil Action |}.
  rewrite andThen_returned, after_nil, deliver_app.
  rewrite deliver_not_completed by assumption.
  rewrite andThen_returned, after_nil. cbn [deliver]. rewrite bind_run.
  unfold on_data. rewrite Hlast, Hp.
  cbn [Js.truthy_opt Js.truthy negb andb].
  destruct (Js.test_whitespace (x :: f)); run;
    unfold toolOutputService_append, act, ret; run; split; reflexivity.
Qed.

Lemma first_file_name_is_the_one_reported_witness :
  let r :=
    deliver (on_data index_updated_chunk)
      (progress "package_index.json" false
       :: [progress "package_index.json.sig" false; {| getDownloadProgress := None |}]
       ++ [progress "package_index.json.sig" true])
      None initial in
  outcome r = Returned None
  /\ did r
     = [Append (info (if Js.test_whitespace (Js.lit "package_index.json")
                      then completed_chunk (Js.lit "package_index.json")
                      else download_completed_chunk (Js.lit "package_index.json")))].
Proof.
  apply (first_file_name_is_the_one_reported index_updated_chunk
           (Js.lit "package_index.json")
           [progress "package_index.json.sig" false; {| getDownloadProgress := None |}]
           (progress "package_index.json.sig" true)
           {| getFile := Js.lit "package_index.json.sig"; getCompleted := true |}
           initial); reflexivity.
Defined.

(** X8. Messages that carry no download progress are ignored by the
    listeners: delivering a stream gives the same lines, the same tracked
    name and the same state as delivering it without these messages. *)
Theorem messages_without_progress_are_ignored
    (updated : Js.str) (msgs : list UpdateIndexResp)
    (file : option Js.str) (s : State) :
  deliver (on_data updated) msgs file s
  = deliver (on_data updated) (filter has_progress msgs) file s.
Proof.
  revert file s. induction msgs as [|o msgs IH]; intros file s; [reflexivity|].
  cbn [filter]. unfold has_progress at 1.
  destruct (getDownloadProgress o) as [p|] eqn:Ho.
  - cbn [deliver]. rewrite !bind_run.
    destruct (on_data updated file o s) as [[file'|e] s' t].
    + rewrite !andThen_returned, IH. reflexivity.
    + reflexivity.
  - cbn [deliver]. rewrite bind_run. unfold on_data at 1. rewrite Ho.
    unfold ret at 1. rewrite andThen_returned, after_nil. apply IH.
Qed.

(** X9. Successive files of one stream are reported independently: after a
    completed progress the listener goes on as on a fresh stream, so the
    lines of the whole stream are the lines up to that message followed by
    the lines of the rest delivered from no tracked name. *)
Theorem lines_split_at_a_completion
    (updated : Js.str) (before after_it : list UpdateIndexResp)
    (o : UpdateIndexResp) (p : DownloadProgress)
    (file : option Js.str) (s : State) :
  getDownloadProgress o = Some p ->
  getCompleted p = true ->
  did (deliver (on_data updated) (before ++ o :: after_it) file s)
  = did (deliver (on_data updated) (before ++ [o]) file s)
    ++ did (deliver (on_data updated) after_it None s).
Proof.
  intros Ho Hp.
  replace (before ++ o :: after_it) with ((before ++ [o]) ++ after_it)
    by (rewrite <- app_assoc; reflexivity).
  rewrite (deliver_app (on_data updated) (before ++ [o]) after_it).
  assert (E : exists t, deliver (on_data updated) (before ++ [o]) file s
                        = {| outcome := Returned None; final := s; did := t |}).
  { rewrite deliver_app.
    destruct (deliver_on_data updated before file s) as (f1 & E1 & _).
    rewrite E1, andThen_returned. cbn [deliver]. rewrite bind_run.
    destruct (on_data_completed updated f1 o p s Ho Hp) as [Hout Hfin].
    destruct (on_data updated f1 o s) as [out s' t]. cbn [outcome final] in Hout, Hfin.
    subst out s'. rewrite andThen_returned. unfold ret, after. cbn [outcome final did].
    eexists. reflexivity. }
  destruct E as (t & E). rewrite E, andThen_returned. reflexivity.
Qed.

Lemma lines_split_at_a_completion_witness :
  did (deliver (on_data index_updated_chunk)
         ([progress "package_index.json" false]
          ++ progress "package_index.json" true :: [progress "" true])
         None initial)
  = did (deliver (on_data index_updated_chunk)
           ([progress "package_index.json" false]
            ++ [progress "package_index.json" true])
           None initial)
    ++ did (deliver (on_data index_updated_chunk) [progress "" true] None initial).
Proof.
  apply (lines_split_at_a_completion index_updated_chunk
           [progress "package_index.json" false] [progress "" true]
           (progress "package_index.json" true)
           {| getFile := Js.lit "package_index.json"; getCompleted := true |}
           None initial); reflexivity.
Defined.

(** ** Further properties of the handshake and of the reuse of a session *)

Lemma last_message_snoc (msgs : list InitResp) (resp : InitResp) :
  last_message (msgs ++ [resp]) = Some resp.
Proof. unfold last_message. rewrite fold_left_app. reflexivity. Qed.

Lemma filter_is_init_updateIndexes (daemon : Daemon) (c : Client) (s : State) :
  filter is_init (calls (did (updateIndexes daemon c s))) = [].
Proof.
  rewrite calls_updateIndexes.
  change (UpdateIndexReq (instance c)) with (request PackageIndex (instance c)).
  change (UpdateLibrariesIndexReq (instance c)) with (request LibraryIndex (instance c)).
  rewrite filter_app, !filter_is_init_requests. reflexivity.
Qed.

(** X10. When the init stream ends well, only its last message counts for
    [createClient], whatever came before it: a last message with an instance
    gives the session of that instance on the channel for [localhost:port],
    a last message without instance gives the initialization error, even if
    an earlier message carried an instance. *)
Theorem createClient_last_message_decides
    (daemon : Daemon) (port : Js.str) (s : State)
    (msgs : list InitResp) (resp : InitResp) :
  data (init_stream daemon (init_calls s)) = msgs ++ [resp] ->
  ending (init_stream daemon (init_calls s)) = ended ->
  outcome (createClient daemon port s)
  = match getInstance resp with
    | Some inst =>
        Returned {| client := {| target := Js.lit "localhost:" +++ port |};
                    instance := inst |}
    | None => Threw initialization_error
    end.
Proof.
  intros Hd He. rewrite createClient_run. unfold handshake.
  rewrite He, Hd, last_message_snoc.
  destruct (getInstance resp); reflexivity.
Qed.

Lemma createClient_last_message_decides_witness :
  outcome (createClient healthy (Js.lit "50051") initial)
  = match getInstance {| getInstance := Some instance1 |} with
    | Some inst =>
        Returned {| client := {| target := Js.lit "localhost:" +++ Js.lit "50051" |};
                    instance := inst |}
    | None => Threw initialization_error
    end.
Proof.
  apply (createClient_last_message_decides healthy (Js.lit "50051") initial
           [ {| getInstance := None |} ] {| getInstance := Some instance1 |});
    reflexivity.
Defined.

(** X11. When the init stream ends in an error, [createClient] throws that
    very error, whatever messages the stream delivered before, an instance
    included; it has then done nothing but construct the channel and issue
    the init request. *)
Theorem createClient_rethrows_stream_error
    (daemon : Daemon) (port : Js.str) (s : State) (err : Js.str) :
  ending (init_stream daemon (init_calls s)) = errored err ->
  let r := createClient daemon port s in
  outcome r = Threw (StreamError err)
  /\ did r = [Construct (channel port); Call (channel port) (InitReq false)].
Proof.
  intro He. cbv zeta. rewrite createClient_run. unfold handshake. rewrite He.
  split; reflexivity.
Qed.

Lemma createClient_rethrows_stream_error_witness :
  let r := createClient init_breaks (Js.lit "50051") initial in
  outcome r = Threw (StreamError (Js.lit "Error: 14 UNAVAILABLE: failed to connect"))
  /\ did r = [Construct (channel (Js.lit "50051"));
              Call (channel (Js.lit "50051")) (InitReq false)].
Proof.
  apply (createClient_rethrows_stream_error init_breaks (Js.lit "50051") initial
           (Js.lit "Error: 14 UNAVAILABLE: failed to connect")).
  reflexivity.
Defined.

(** X12. Every call of [createClient] constructs exactly one channel, issues
    exactly one init request, on that channel and with [libraryManagerOnly]
    false, before anything else, and closes no channel, not even the one it
    constructed when it then fails.  When it throws it has done nothing
    else: no index request, no line, no notification.  When it returns, the
    index synchronisation has run once, after the handshake, on the session
    returned, and "index updated" has fired. *)
Theorem createClient_trace (daemon : Daemon) (port : Js.str) (s : State) :
  let r := createClient daemon port s in
  constructed (did r) = [channel port]
  /\ filter is_init (calls (did r)) = [(channel port, InitReq false)]
  /\ closed (did r) = []
  /\ match outcome r with
     | Returned c =>
         client c = channel port
         /\ did r
            = [Construct (channel port); Call (channel port) (InitReq false)]
              ++ did (updateIndexes daemon c (init_served s))
         /\ fired (did r) = [onIndexUpdatedEmitter]
     | Threw _ =>
         did r = [Construct (channel port); Call (channel port) (InitReq false)]
     end.
Proof.
  cbv zeta. rewrite createClient_run.
  destruct (handshake (init_stream daemon (init_calls s))) as [inst|e];
    cbv zeta; cbn [outcome did].
  - rewrite constructed_app, closed_app, calls_app, filter_app, fired_app.
    rewrite constructed_updateIndexes, closed_updateIndexes,
      filter_is_init_updateIndexes, fired_updateIndexes.
    repeat split.
  - repeat split.
Qed.

(** X13. When the endpoint is the one of the current session and the session
    exists, [reconcileClient] fires "index updated" and then "client ready",
    in this order and once each, as its last two actions: every line of the
    synchronisation is in the sink before either notification. *)
Theorem reuse_fires_index_updated_then_client_ready
    (daemon : Daemon) (port : option Js.str) (c : Client) (s : State) :
  same_endpoint port s = true ->
  _client s = Some c ->
  let r := reconcileClient daemon port s in
  fired (did r) = [onIndexUpdatedEmitter; onClientReadyEmitter]
  /\ exists t,
       did r = t ++ [Fire onIndexUpdatedEmitter; Fire onClientReadyEmitter]
       /\ fired t = []
       /\ sink t = sink (did r).
Proof.
  intros Hsame Hc. cbv zeta.
  rewrite (reconcileClient_reuse daemon port c s Hsame Hc). cbn [did].
  rewrite fired_app, fired_updateIndexes. split; [reflexivity|].
  rewrite updateIndexes_run. cbn [did].
  exists (retry_actions daemon PackageIndex c 10 0 (updateIndex_calls s)
          ++ retry_actions daemon LibraryIndex c 10 0 (updateLibrariesIndex_calls s)).
  split; [rewrite <- !app_assoc; reflexivity|].
  split.
  - rewrite fired_app, !fired_retry. reflexivity.
  - rewrite !sink_app. cbn [sink]. rewrite !app_nil_r. reflexivity.
Qed.

Lemma reuse_fires_index_updated_then_client_ready_witness :
  let s := with_session (Some (Js.lit "50051")) (Some client1) initial in
  let r := reconcileClient package_index_down (Some (Js.lit "50051")) s in
  fired (did r) = [onIndexUpdatedEmitter; onClientReadyEmitter]
  /\ exists t,
       did r = t ++ [Fire onIndexUpdatedEmitter; Fire onClientReadyEmitter]
       /\ fired t = []
       /\ sink t = sink (did r).
Proof.
  apply (reuse_fires_index_updated_then_client_ready
           package_index_down (Some (Js.lit "50051")) client1
           (with_session (Some (Js.lit "50051")) (Some client1) initial));
    reflexivity.
Defined.

Section SinkExtras.

Variable daemon : Daemon.

Lemma tool_lines_from g t evs :
  tool g = daemon_tool ->
  Forall (fun m => tool m = daemon_tool) (Spec.lines_from g t evs).
Proof.
  intro Hg. revert t.
  induction evs as [|ev evs IH]; intro t; cbn [Spec.lines_from]; [constructor|].
  unfold Spec.step.
  destruct (Spec.completed ev); cbn [fst snd]; [|apply IH].
  constructor; [|apply IH].
  destruct t; destruct (Spec.filename ev); try exact Hg;
    unfold Spec.download_line;
    match goal with
    | |- context [Js.test_whitespace ?l] => destruct (Js.test_whitespace l)
    end; reflexivity.
Qed.

Lemma tool_retry k c : forall fuel i n,
  Forall (fun m => tool m = daemon_tool) (sink (retry_actions daemon k c fuel i n)).
Proof.
  induction fuel as [|fuel IH]; intros i n; cbn [retry_actions]; [constructor|].
  rewrite sink_app, sink_attempt. apply Forall_app. split.
  - apply tool_lines_from. reflexivity.
  - destruct (ending (sync_stream daemon k n)) as [|err]; cbn [sink]; [constructor|].
    constructor; [reflexivity|apply IH].
Qed.

End SinkExtras.

(** X14. Every line that [updateIndexes] appends is for the tool "daemon",
    and the lines it marks with severity "error" are exactly its attempt
    lines: as many as the package-index and library-index error lines
    together; a completion line is never marked as an error. *)
Theorem updateIndexes_lines_tool_and_severity
    (daemon : Daemon) (c : Client) (s : State) :
  let t := did (updateIndexes daemon c s) in
  Forall (fun m => tool m = Js.lit "daemon") (sink t)
  /\ count_lines (fun m => negb (is_plain m)) t
     = count_lines (is_attempt_failed PackageIndex) t
       + count_lines (is_attempt_failed LibraryIndex) t
  /\ length (sink t)
     = count_lines is_plain t + count_lines (fun m => negb (is_plain m)) t.
Proof.
  cbv zeta. rewrite updateIndexes_run. cbn [did]. split; [|split].
  - rewrite !sink_app. cbn [sink]. rewrite app_nil_r.
    apply Forall_app. split; apply tool_retry.
  - assert (G : forall k fuel i n,
               count_lines (fun m => negb (is_plain m))
                 (retry_actions daemon k c fuel i n)
               = count_lines (is_attempt_failed k)
                   (retry_actions daemon k c fuel i n)).
    { intros k. induction fuel as [|fuel IH]; intros i n;
        cbn [retry_actions]; [reflexivity|].
      rewrite !count_lines_app.
      rewrite (count_plain_attempt daemon (is_attempt_failed k))
        by (intro m; apply is_attempt_failed_plain).
      rewrite (count_plain_attempt daemon (fun m => negb (is_plain m)))
        by (intros m Hm; unfold is_plain; rewrite Hm; reflexivity).
      destruct (ending (sync_stream daemon k n)) as [|err]; [reflexivity|].
      change (Append (attempt_failed k i err)
              :: retry_actions daemon k c fuel (S i) (S n))
        with ([Append (attempt_failed k i err)]
              ++ retry_actions daemon k c fuel (S i) (S n)).
      rewrite !count_lines_app, IH. unfold count_lines. cbn [sink filter].
      rewrite is_attempt_failed_own. reflexivity. }
    rewrite !count_lines_app, !G, !count_failed_retry.
    rewrite !count_failed_other by discriminate.
    unfold count_lines. cbn. lia.
  - unfold count_lines.
    generalize (sink
                  (retry_actions daemon PackageIndex c 10 0 (updateIndex_calls s)
                   ++ retry_actions daemon LibraryIndex c 10 0
                        (updateLibrariesIndex_calls s)
                   ++ [Fire onIndexUpdatedEmitter])).
    induction l as [|m l IH]; [reflexivity|].
    cbn [filter length]. destruct (is_plain m); cbn [negb length]; lia.
Qed.
